(** * Chat client: sessions, conversation engine, documents, voice bridge

    A shallow embedding of [src/App.tsx] (the React component [App]) and proofs
    of the properties its specification states about it.

    Conventions of the embedding.

    - A JavaScript string is a Rocq [string]; every [ascii] stands for one
      UTF-16 code unit below 256 (the Latin-1 range), so the white space of
      [String.prototype.trim] and of the regular-expression class [\s] is
      TAB, LF, VT, FF, CR, SPACE and NBSP.
    - React state is one record, [AppState]; a handler is a function from the
      state its closure captured to the state after all its [setX] calls have
      been applied in program order.  A handler runs without another handler
      interleaving at its [await]s.
    - What the handler asks of the outside world (alerts, API requests,
      speech synthesis, the console) is recorded, in order, in a trace of
      [Event]s; what the world answers is read from an [Env].
    - An exception that leaves a handler (an unhandled promise rejection or
      a [TypeError]) is the [uncaught] flag of the result.
    - [localStorage] is a finite map from keys to strings. *)

From Stdlib Require Import String Ascii List Bool Arith Lia DecimalString.
From stdpp Require Import base strings gmap.
Import ListNotations.
Open Scope string_scope.
Open Scope list_scope.

(** ** JavaScript strings *)

(** The code units below 256 that ECMAScript classes as WhiteSpace or
    LineTerminator: what [trim] strips and what [\s] matches. *)
Definition isWhiteSpace (c : ascii) : bool :=
  let n := nat_of_ascii c in
  Nat.eqb n 9 || Nat.eqb n 10 || Nat.eqb n 11 || Nat.eqb n 12
  || Nat.eqb n 13 || Nat.eqb n 32 || Nat.eqb n 160.

Fixpoint trimStart (s : string) : string :=
  match s with
  | EmptyString => EmptyString
  | String c r => if isWhiteSpace c then trimStart r else s
  end.

Fixpoint trimEnd (s : string) : string :=
  match s with
  | EmptyString => EmptyString
  | String c r =>
      let r' := trimEnd r in
      if (r' =? "")%string && isWhiteSpace c then EmptyString else String c r'
  end.

(** [s.trim()] *)
Definition trim (s : string) : string := trimEnd (trimStart s).

(** A string is blank when it is empty or holds white space only. *)
Fixpoint blank (s : string) : bool :=
  match s with
  | EmptyString => true
  | String c r => isWhiteSpace c && blank r
  end.

(** JavaScript truthiness of a string: every string but the empty one. *)
Definition truthy (s : string) : bool := negb (s =? "")%string.

(** Truthiness of a [string | null]. *)
Definition truthy_opt (o : option string) : bool :=
  match o with
  | Some s => truthy s
  | None => false
  end.

Definition dquote : ascii := "034"%char.
Definition squote : ascii := "039"%char.
Definition newline : string := String "010"%char EmptyString.

(** [s.replace(re, '')], [re] the global character class of the double and
    the single quote: every occurrence of either is removed. *)
Fixpoint removeQuotes (s : string) : string :=
  match s with
  | EmptyString => EmptyString
  | String c r =>
      if Ascii.eqb c dquote || Ascii.eqb c squote then removeQuotes r
      else String c (removeQuotes r)
  end.

(** Canonicalisation of a code unit under the [i] flag (no [u] flag): the
    upper-case mapping.  Only [a]-[z] are mapped here: no code unit outside
    ASCII canonicalises to an ASCII letter, so for a pattern of ASCII letters
    the other code units can stay as they are. *)
Definition canonicalize (c : ascii) : ascii :=
  let n := nat_of_ascii c in
  if Nat.leb 97 n && Nat.leb n 122 then ascii_of_nat (n - 32) else c.

(** The lower-case mapping on the letters [A]-[Z]. *)
Definition toLowerCase_ascii (c : ascii) : ascii :=
  let n := nat_of_ascii c in
  if Nat.leb 65 n && Nat.leb n 90 then ascii_of_nat (n + 32) else c.

Fixpoint toLowerCase (s : string) : string :=
  match s with
  | EmptyString => EmptyString
  | String c r => String (toLowerCase_ascii c) (toLowerCase r)
  end.

Definition ci_eqb (c p : ascii) : bool :=
  Ascii.eqb (canonicalize c) (canonicalize p).

(** The alternation [(send|sent)] followed by [$]: the rest of the input is
    exactly one of the two words, in any letter case. *)
Definition send_word_at_end (s : string) : bool :=
  match s with
  | String a (String b (String c (String d EmptyString))) =>
      ci_eqb a "s" && ci_eqb b "e" && ci_eqb c "n"
      && (ci_eqb d "d" || ci_eqb d "t")
  | _ => false
  end.

(** [/\s(send|sent)$/i] run over [s]: start positions are tried from the
    left; the result is the text before the first match. *)
Fixpoint sendCommandRegex_exec (s : string) : option string :=
  match s with
  | EmptyString => None
  | String c r =>
      if isWhiteSpace c && send_word_at_end r then Some EmptyString
      else option_map (String c) (sendCommandRegex_exec r)
  end.

(** [sendCommandRegex.test(s)] *)
Definition sendCommandRegex_test (s : string) : bool :=
  match sendCommandRegex_exec s with
  | Some _ => true
  | None => false
  end.

(** [s.replace(sendCommandRegex, '')]: the match runs to the end of [s], so
    what is left is the text before it. *)
Definition sendCommandRegex_strip (s : string) : string :=
  match sendCommandRegex_exec s with
  | Some before => before
  | None => s
  end.

(** ** Data model *)

Inductive Role : Set := user | assistant | system.

Record Message : Set := { role : Role; content : string }.

Record Chat : Set := { id : string; title : string; messages : list Message }.

Record LoadedDocument : Set := { name : string; doc_content : string }.

(** A LangChain [Document], of which only [pageContent] is read. *)
Record Document : Set := { pageContent : string }.

(** [BaseRetriever.getRelevantDocuments]: [None] is a rejected promise. *)
Definition Retriever : Set := string -> option (list Document).

Record AppState : Type := {
  apiKey : string;
  model : string;
  chats : list Chat;
  activeChatId : option string;
  input : string;
  isLoading : bool;
  isMuted : bool;
  voiceCommandToSend : option string;
  ragRetriever : option Retriever;
  loadedDocuments : list LoadedDocument;
  utteranceStartIndexRef : nat
}.

Definition setChats (v : list Chat) (st : AppState) : AppState :=
  {| apiKey := apiKey st; model := model st; chats := v;
     activeChatId := activeChatId st; input := input st;
     isLoading := isLoading st; isMuted := isMuted st;
     voiceCommandToSend := voiceCommandToSend st;
     ragRetriever := ragRetriever st;
     loadedDocuments := loadedDocuments st;
     utteranceStartIndexRef := utteranceStartIndexRef st |}.

Definition setActiveChatId (v : option string) (st : AppState) : AppState :=
  {| apiKey := apiKey st; model := model st; chats := chats st;
     activeChatId := v; input := input st;
     isLoading := isLoading st; isMuted := isMuted st;
     voiceCommandToSend := voiceCommandToSend st;
     ragRetriever := ragRetriever st;
     loadedDocuments := loadedDocuments st;
     utteranceStartIndexRef := utteranceStartIndexRef st |}.

Definition setInput (v : string) (st : AppState) : AppState :=
  {| apiKey := apiKey st; model := model st; chats := chats st;
     activeChatId := activeChatId st; input := v;
     isLoading := isLoading st; isMuted := isMuted st;
     voiceCommandToSend := voiceCommandToSend st;
     ragRetriever := ragRetriever st;
     loadedDocuments := loadedDocuments st;
     utteranceStartIndexRef := utteranceStartIndexRef st |}.

Definition setIsLoading (v : bool) (st : AppState) : AppState :=
  {| apiKey := apiKey st; model := model st; chats := chats st;
     activeChatId := activeChatId st; input := input st;
     isLoading := v; isMuted := isMuted st;
     voiceCommandToSend := voiceCommandToSend st;
     ragRetriever := ragRetriever st;
     loadedDocuments := loadedDocuments st;
     utteranceStartIndexRef := utteranceStartIndexRef st |}.

Definition setVoiceCommandToSend (v : option string) (st : AppState)
  : AppState :=
  {| apiKey := apiKey st; model := model st; chats := chats st;
     activeChatId := activeChatId st; input := input st;
     isLoading := isLoading st; isMuted := isMuted st;
     voiceCommandToSend := v;
     ragRetriever := ragRetriever st;
     loadedDocuments := loadedDocuments st;
     utteranceStartIndexRef := utteranceStartIndexRef st |}.

Definition setLoadedDocuments (v : list LoadedDocument) (st : AppState)
  : AppState :=
  {| apiKey := apiKey st; model := model st; chats := chats st;
     activeChatId := activeChatId st; input := input st;
     isLoading := isLoading st; isMuted := isMuted st;
     voiceCommandToSend := voiceCommandToSend st;
     ragRetriever := ragRetriever st;
     loadedDocuments := v;
     utteranceStartIndexRef := utteranceStartIndexRef st |}.

Definition setUtteranceStartIndex (v : nat) (st : AppState) : AppState :=
  {| apiKey := apiKey st; model := model st; chats := chats st;
     activeChatId := activeChatId st; input := input st;
     isLoading := isLoading st; isMuted := isMuted st;
     voiceCommandToSend := voiceCommandToSend st;
     ragRetriever := ragRetriever st;
     loadedDocuments := loadedDocuments st;
     utteranceStartIndexRef := v |}.

(** [a === x] for [a : string | null] and a string [x] *)
Definition strict_eq (a : option string) (x : string) : bool :=
  match a with
  | Some s => (s =? x)%string
  | None => false
  end.

(** [chat => chat.id === x] *)
Definition has_id (x : option string) (c : Chat) : bool := strict_eq x (id c).

Arguments has_id : simpl never.

(** [const activeChat = chats.find(chat => chat.id === activeChatId)] *)
Definition activeChat (st : AppState) : option Chat :=
  find (has_id (activeChatId st)) (chats st).

(** The sessions the sidebar renders with the class [active]:
    [chat.id === activeChatId ? 'active' : ''] *)
Definition active_sessions (st : AppState) : list Chat :=
  List.filter (has_id (activeChatId st)) (chats st).

(** ** Session store *)

(** [handleNewChat]; [now] is [Date.now().toString()]. *)
Definition handleNewChat (now : string) (st : AppState) : AppState :=
  let newChat := {| id := now; title := "New Chat"; messages := [] |} in
  setActiveChatId (Some (id newChat)) (setChats (newChat :: chats st) st).

(** [handleDeleteChat] *)
Definition handleDeleteChat (chatId : string) (st : AppState) : AppState :=
  let st1 :=
    setChats
      (List.filter (fun chat => negb (has_id (Some chatId) chat)) (chats st)) st
  in
  if strict_eq (activeChatId st) chatId then
    let remainingChats :=
      List.filter (fun chat => negb (has_id (Some chatId) chat)) (chats st) in
    setActiveChatId
      (match remainingChats with
       | c :: _ => Some (id c)
       | [] => None
       end) st1
  else st1.

Inductive SessionOp : Set :=
| createSession (now : string)
| deleteSession (chatId : string).

Definition session_step (st : AppState) (op : SessionOp) : AppState :=
  match op with
  | createSession now => handleNewChat now st
  | deleteSession chatId => handleDeleteChat chatId st
  end.

Definition run_session_ops (ops : list SessionOp) (st : AppState) : AppState :=
  fold_left session_step ops st.

(** ** Persistence *)

Definition key_chats : string := "chatbot-chats".
Definition key_active : string := "chatbot-active-chat-id".
Definition key_apiKey : string := "openai-api-key".

(** The initial values of the [useState] and [useRef] calls. *)
Definition initialState (localStorage : gmap string string) : AppState :=
  {| apiKey := default "" (localStorage !! key_apiKey);
     model := "gpt-4o"; chats := []; activeChatId := None; input := "";
     isLoading := false; isMuted := false; voiceCommandToSend := None;
     ragRetriever := None; loadedDocuments := [];
     utteranceStartIndexRef := 0 |}.

Section Storage.

(** [JSON.stringify] and [JSON.parse] at the type [Chat[]]; [None] is a
    thrown [SyntaxError]. *)
Variable JSON_stringify : list Chat -> string.
Variable JSON_parse : string -> option (list Chat).

(** The mount effect that initialises the chats.  [None]: the effect
    throws. *)
Definition initChats (now : string) (localStorage : gmap string string)
    (st : AppState) : option AppState :=
  match localStorage !! key_chats with
  | Some savedChatsJSON =>
      if truthy savedChatsJSON then
        match JSON_parse savedChatsJSON with
        | Some (c0 :: rest) =>
            let savedChats := c0 :: rest in
            let savedActiveId := localStorage !! key_active in
            let activeIdExists := existsb (has_id savedActiveId) savedChats in
            Some (setActiveChatId
                    (if activeIdExists then savedActiveId else Some (id c0))
                    (setChats savedChats st))
        | Some [] => Some (handleNewChat now st)
        | None => None
        end
      else Some (handleNewChat now st)
  | None => Some (handleNewChat now st)
  end.

(** The effect that saves chats and active chat id. *)
Definition saveChats (st : AppState) (localStorage : gmap string string)
    : gmap string string :=
  let ls1 := <[key_chats := JSON_stringify (chats st)]> localStorage in
  match activeChatId st with
  | Some a => if truthy a then <[key_active := a]> ls1 else ls1
  | None => ls1
  end.


End Storage.

(** ** The outside world *)

Inductive CallSite : Set := TitleCall | MainCall.

Inductive Event : Set :=
| Alert (text : string)
| GetRelevantDocuments (query : string)
| CompletionsCreate (site : CallSite) (model : string) (msgs : list Message)
| SpeechCancel
| SpeechSpeak (text : string)
| ConsoleError (label : string).

(** What [openai.chat.completions.create] resolves to: a rejection, or a
    response given by [message.content] of each of its choices. *)
Inductive ApiResult : Set :=
| ApiError
| ApiResponse (choices : list (option string)).

Record Env : Set := {
  Date_now : string;
  completions_create : string -> list Message -> ApiResult;
  speechSynthesis : bool
}.

Record Result : Type := {
  final : AppState;
  trace : list Event;
  uncaught : bool
}.

Definition resolved (st : AppState) (tr : list Event) : Result :=
  {| final := st; trace := tr; uncaught := false |}.

Definition throws (st : AppState) (tr : list Event) : Result :=
  {| final := st; trace := tr; uncaught := true |}.

(** ** Document store *)

Record File : Set := { file_name : string; file_text : string }.

(** [file => ({ name: file.name, content: await file.text() })] *)
Definition toDocument (file : File) : LoadedDocument :=
  {| name := file_name file; doc_content := file_text file |}.

(** The updater passed to [setLoadedDocuments]. *)
Definition addDocuments (newDocs prevDocs : list LoadedDocument)
    : list LoadedDocument :=
  let existingNames := map name prevDocs in
  let filteredNewDocs :=
    List.filter
      (fun d => negb (existsb (String.eqb (name d)) existingNames)) newDocs in
  prevDocs ++ filteredNewDocs.

(** [handleFileUpload] *)
Definition handleFileUpload (files : list File) (st : AppState) : Result :=
  if negb (truthy (apiKey st)) then
    resolved st
      [Alert "Please enter your OpenAI API key before loading documents."]
  else
    match files with
    | [] => resolved st []
    | _ =>
        let newDocs := map toDocument files in
        resolved
          (setLoadedDocuments (addDocuments newDocs (loadedDocuments st)) st)
          []
    end.

(** ** Conversation engine *)

(** [speak] *)
Definition speak (env : Env) (st : AppState) (text : string) : list Event :=
  if isMuted st || negb (speechSynthesis env) then []
  else [SpeechCancel; SpeechSpeak text].

Definition systemPrompt : Message :=
  {| role := system;
     content := "You are a helpful digital consciousness named Olly that has been created by Zachary Kulik as a demo for the company Olivia." |}.

Definition contextSeparator : string :=
  newline +:+ newline +:+ "---" +:+ newline +:+ newline.

Definition contextInstruction (context : string) : Message :=
  {| role := system;
     content := "Based on the following context, answer the user's question."
                +:+ newline +:+ newline +:+ "Context:" +:+ newline
                +:+ context |}.

Definition titlePrompt (messageContent : string) : string :=
  "Generate a short, concise title (3-5 words) for the following user query: "
  +:+ String dquote messageContent +:+ String dquote EmptyString.

Definition fallbackText : string := "Sorry, something went wrong.".

(** The first element pushed on [messagesForApi]. *)
Definition systemMessage (context : string) : Message :=
  if truthy context then contextInstruction context else systemPrompt.

(** [relevantDocs.map(doc => doc.pageContent).join(sep)] *)
Definition joinContext (relevantDocs : list Document) : string :=
  String.concat contextSeparator (map pageContent relevantDocs).

(** [prev.map(c => c.id === target ? { ...c, title: newTitle } : c)] *)
Definition renameChat (target newTitle : string) (cs : list Chat) : list Chat :=
  map (fun c => if has_id (Some target) c
                then {| id := id c; title := newTitle; messages := messages c |}
                else c) cs.

(** [prev.map(c => c.id === target
                    ? { ...c, messages: [...c.messages, m] } : c)] *)
Definition appendMessage (target : string) (m : Message) (cs : list Chat)
    : list Chat :=
  map (fun c => if has_id (Some target) c
                then {| id := id c; title := title c;
                        messages := messages c ++ [m] |}
                else c) cs.

(** [content?.replace(quotes, '') || 'Chat'] *)
Definition newTitleOf (content : option string) : string :=
  match content with
  | Some s => if truthy (removeQuotes s) then removeQuotes s else "Chat"
  | None => "Chat"
  end.

(** Step 1 of [executeSend]: the target chat, and the state after the user
    message is shown.  [None]: [currentChat] is undefined and reading its
    [messages] throws. *)
Definition resolveTarget (env : Env) (st : AppState) (userMessage : Message)
    : option (Chat * AppState) :=
  let createChat :=
    let targetChat := {| id := Date_now env; title := "New Chat";
                         messages := [userMessage] |} in
    Some (targetChat,
          setChats (targetChat :: chats st)
            (setActiveChatId (Some (id targetChat)) st)) in
  match activeChatId st with
  | Some a =>
      if truthy a then
        match find (has_id (Some a)) (chats st) with
        | Some currentChat =>
            let updatedMessages := messages currentChat ++ [userMessage] in
            Some ({| id := id currentChat; title := title currentChat;
                     messages := updatedMessages |},
                  setChats
                    (map (fun c => if has_id (Some a) c
                                   then {| id := id c; title := title c;
                                           messages := updatedMessages |}
                                   else c) (chats st)) st)
        | None => None
        end
      else createChat
  | None => createChat
  end.

(** The body of the [try] block: the chats, the events, and whether the block
    was left by an exception. *)
Definition tryBlock (env : Env) (st : AppState) (messageContent : string)
    (targetChat : Chat) (messagesForApi : list Message) (cs : list Chat)
    : list Chat * list Event * bool :=
  let '(cs2, tr2, threw) :=
    if Nat.eqb (length (messages targetChat)) 1 then
      let msgs := [{| role := user; content := titlePrompt messageContent |}] in
      let req := CompletionsCreate TitleCall "gpt-4o" msgs in
      match completions_create env "gpt-4o" msgs with
      | ApiResponse (c :: _) =>
          (renameChat (id targetChat) (newTitleOf c) cs, [req], false)
      | _ => (cs, [req], true)
      end
    else (cs, [], false) in
  if threw then (cs2, tr2, true)
  else
    let req := CompletionsCreate MainCall (model st) messagesForApi in
    match completions_create env (model st) messagesForApi with
    | ApiResponse (c :: _) =>
        if truthy_opt c then
          let text := default "" c in
          (appendMessage (id targetChat)
             {| role := assistant; content := text |} cs2,
           tr2 ++ [req] ++ speak env st text, false)
        else (cs2, tr2 ++ [req], false)
    | _ => (cs2, tr2 ++ [req], true)
    end.

(** The [catch] block, applied to what the [try] block left: when it was left
    by an exception, the error is logged and the fallback text is spoken and
    appended. *)
Definition catchBlock (env : Env) (st : AppState) (targetChat : Chat)
    (tried : list Chat * list Event * bool) : list Chat * list Event :=
  let '(cs, tr, threw) := tried in
  if threw then
    (appendMessage (id targetChat)
       {| role := assistant; content := fallbackText |} cs,
     tr ++ [ConsoleError "Error calling OpenAI API:"]
     ++ speak env st fallbackText)
  else (cs, tr).

(** [executeSend]; the [finally] block is the last [setIsLoading]. *)
Definition executeSend (env : Env) (st : AppState) (messageContent : string)
    : Result :=
  if (trim messageContent =? "")%string || isLoading st then resolved st []
  else if negb (truthy (apiKey st)) then
    resolved st [Alert "Please enter your OpenAI API key."]
  else
    let st1 := setIsLoading true (setInput "" st) in
    let '(context, tr1) :=
      match ragRetriever st with
      | Some retriever =>
          (option_map joinContext (retriever messageContent),
           [GetRelevantDocuments messageContent])
      | None => (Some "", [])
      end in
    match context with
    | None => throws st1 tr1
    | Some context =>
        let userMessage := {| role := user; content := messageContent |} in
        match resolveTarget env st1 userMessage with
        | None => throws st1 tr1
        | Some (targetChat, st2) =>
            let messagesForApi :=
              systemMessage context :: messages targetChat in
            let '(cs, tr2) :=
              catchBlock env st targetChat
                (tryBlock env st messageContent targetChat messagesForApi
                   (chats st2)) in
            resolved (setIsLoading false (setChats cs st2)) (tr1 ++ tr2)
        end
    end.

(** [handleSend] *)
Definition handleSend (env : Env) (st : AppState) : Result :=
  executeSend env st (input st).

(** [handleKeyPress] *)
Definition handleKeyPress (env : Env) (key : string) (st : AppState) : Result :=
  if (key =? "Enter")%string then handleSend env st else resolved st [].

(** ** Voice bridge *)

(** A [SpeechRecognitionResult]: the transcript of its first alternative and
    its [isFinal] flag. *)
Record SpeechResult : Set := { transcript : string; isFinal : bool }.

(** The loop that builds the transcript of the current utterance, from
    [utteranceStartIndexRef.current] to the end of [event.results]. *)
Definition currentUtteranceOf (st : AppState) (results : list SpeechResult)
    : string :=
  fold_left (fun acc r => acc +:+ transcript r)
    (skipn (utteranceStartIndexRef st) results) "".

(** [recognition.onresult]; [results] is [event.results]. *)
Definition onresult (results : list SpeechResult) (st : AppState) : Result :=
  let currentUtterance := currentUtteranceOf st results in
  let st1 := setInput currentUtterance st in
  match nth_error results (length results - 1) with
  | None => throws st1 []
  | Some lastResult =>
      if isFinal lastResult then
        if sendCommandRegex_test currentUtterance then
          let messageToSend := trim (sendCommandRegex_strip currentUtterance) in
          if truthy messageToSend then
            resolved
              (setUtteranceStartIndex (length results)
                 (setVoiceCommandToSend (Some messageToSend) st1)) []
          else resolved st1 []
        else resolved st1 []
      else resolved st1 []
  end.

(** The effect on [voiceCommandToSend]. *)
Definition voiceCommandEffect (env : Env) (st : AppState) : Result :=
  match voiceCommandToSend st with
  | Some command =>
      if truthy command then
        let r := executeSend env st command in
        {| final := setVoiceCommandToSend None (final r);
           trace := trace r; uncaught := uncaught r |}
      else resolved st []
  | None => resolved st []
  end.

(** A recognition event followed by the effect it schedules. *)
Definition voiceSubmit (env : Env) (results : list SpeechResult)
    (st : AppState) : Result :=
  let r1 := onresult results st in
  if uncaught r1 then r1
  else
    let r2 := voiceCommandEffect env (final r1) in
    {| final := final r2; trace := trace r1 ++ trace r2;
       uncaught := uncaught r2 |}.

(** ** Further handlers *)

(** [onClick={() => setActiveChatId(chat.id)}] on the sidebar entry of
    [chat]. *)
Definition handleSelectChat (chat : Chat) (st : AppState) : AppState :=
  setActiveChatId (Some (id chat)) st.

(** The effect that saves the API key. *)
Definition saveApiKey (st : AppState) (localStorage : gmap string string)
    : gmap string string :=
  <[key_apiKey := apiKey st]> localStorage.

(** [handleRemoveDocument] *)
Definition handleRemoveDocument (docNameToRemove : string) (st : AppState)
    : AppState :=
  setLoadedDocuments
    (List.filter (fun doc => negb (name doc =? docNameToRemove)%string)
       (loadedDocuments st)) st.

Definition setRagRetriever (v : option Retriever) (st : AppState) : AppState :=
  {| apiKey := apiKey st; model := model st; chats := chats st;
     activeChatId := activeChatId st; input := input st;
     isLoading := isLoading st; isMuted := isMuted st;
     voiceCommandToSend := voiceCommandToSend st;
     ragRetriever := v;
     loadedDocuments := loadedDocuments st;
     utteranceStartIndexRef := utteranceStartIndexRef st |}.

(** What the index builder asks of its libraries: the text content of the
    body of a parsed document, the text splitter, and the vector store built
    over the embeddings of the chunks with a given key.  [None] is a rejected
    promise. *)
Record RagEnv : Set := {
  bodyTextContent : string -> string;
  splitDocuments : list Document -> option (list Document);
  fromDocuments : string -> list Document -> option Retriever
}.

(** What the index builder shows: the values given to [setRagStatus], and the
    error it logs. *)
Inductive RagEvent : Set :=
| RagStatus (status : string)
| RagConsoleError (label : string).

(** A count in a template string. *)
Definition decimal (n : nat) : string :=
  NilEmpty.string_of_uint (Nat.to_uint n).

(** [buildRagFromLoadedDocs] *)
Definition buildRagFromLoadedDocs (renv : RagEnv) (st : AppState)
    : AppState * list RagEvent :=
  match loadedDocuments st with
  | [] => (setRagRetriever None st, [RagStatus "No documents loaded."])
  | _ :: _ =>
      let count := decimal (length (loadedDocuments st)) in
      let processing :=
        RagStatus ("Processing " +:+ count +:+ " document(s)...") in
      let failed :=
        (st, [processing; RagConsoleError "Error building RAG system:";
              RagStatus "Error processing documents."]) in
      let docs :=
        map (fun d => {| pageContent := bodyTextContent renv (doc_content d) |})
          (loadedDocuments st) in
      match splitDocuments renv docs with
      | Some splitDocs =>
          match fromDocuments renv (apiKey st) splitDocs with
          | Some retriever =>
              (setRagRetriever (Some retriever) st,
               [processing;
                RagStatus ("Ready. " +:+ count +:+ " document(s) loaded.")])
          | None => failed
          end
      | None => failed
      end
  end.

(** The status line after a run of the builder: the last status set. *)
Definition lastStatus (evs : list RagEvent) (previous : string) : string :=
  fold_left (fun acc e => match e with
                          | RagStatus s => s
                          | RagConsoleError _ => acc
                          end) evs previous.

(** ** Vocabulary of the specification *)

(** The active id is null exactly when there is no session, and otherwise it
    is the id of a session of the list. *)
Definition session_invariant (st : AppState) : Prop :=
  (activeChatId st = None <-> chats st = [])
  /\ (forall a, activeChatId st = Some a -> In a (map id (chats st))).

(** Every [createSession] of [ops] reads a clock value that no session of the
    list carries at that time. *)
Fixpoint clock_fresh (ops : list SessionOp) (st : AppState) : Prop :=
  match ops with
  | [] => True
  | op :: rest =>
      match op with
      | createSession now => ~ In now (map id (chats st))
      | deleteSession _ => True
      end /\ clock_fresh rest (session_step st op)
  end.


(** The names held by the document store, in order. *)
Definition names (docs : list LoadedDocument) : list string := map name docs.

(** The events that reach the network. *)
Definition is_network_call (e : Event) : bool :=
  match e with
  | CompletionsCreate _ _ _ | GetRelevantDocuments _ => true
  | _ => false
  end.

(** The API call failed: a rejection, or a response without a first choice. *)
Definition api_fails (a : ApiResult) : bool :=
  match a with
  | ApiResponse (_ :: _) => false
  | _ => true
  end.

(** [message.content] of the first choice of a response. *)
Definition first_content (a : ApiResult) : option string :=
  match a with
  | ApiResponse (c :: _) => c
  | _ => None
  end.

(** The messages of the session a send is aimed at, before the send: those
    of the active session, or none when a session has yet to be created. *)
Definition target_history (st : AppState) : list Message :=
  if truthy_opt (activeChatId st) then
    match activeChat st with
    | Some c => messages c
    | None => []
    end
  else [].

(** The title of the session a send is aimed at, before the send. *)
Definition target_title (st : AppState) : string :=
  if truthy_opt (activeChatId st) then
    match activeChat st with
    | Some c => title c
    | None => "New Chat"
    end
  else "New Chat".

(** The preconditions of a send. *)
Definition accepted (st : AppState) (text : string) : Prop :=
  blank text = false /\ isLoading st = false /\ apiKey st <> "".

(** The retrieval index, when present, answers the query. *)
Definition retrieval_answers (st : AppState) (text : string) : Prop :=
  forall retriever, ragRetriever st = Some retriever -> retriever text <> None.

(** The active id, when there is one, is the id of a session of the list. *)
Definition target_resolves (st : AppState) : Prop :=
  truthy_opt (activeChatId st) = true -> activeChat st <> None.

(** The context block of a send: the retrieved chunks, joined. *)
Definition retrieved_context (st : AppState) (text : string) : string :=
  match ragRetriever st with
  | Some retriever =>
      match retriever text with
      | Some docs => joinContext docs
      | None => ""
      end
  | None => ""
  end.

(** The request for a title. *)
Definition title_request (text : string) : list Message :=
  [{| role := user; content := titlePrompt text |}].

Definition is_speech (e : Event) : bool :=
  match e with
  | SpeechCancel | SpeechSpeak _ => true
  | _ => false
  end.

(** The events of the retrieval step. *)
Definition retrieval_events (st : AppState) (text : string) : list Event :=
  match ragRetriever st with
  | Some _ => [GetRelevantDocuments text]
  | None => []
  end.

(** The send is the first exchange of its session. *)
Definition first_exchange (st : AppState) : bool :=
  match target_history st with
  | [] => true
  | _ :: _ => false
  end.

(** The answer of the world to the title request. *)
Definition title_result (env : Env) (text : string) : ApiResult :=
  completions_create env "gpt-4o" (title_request text).

(** The prompt of the main request. *)
Definition expected_prompt (st : AppState) (text : string) : list Message :=
  systemMessage (retrieved_context st text)
  :: target_history st ++ [{| role := user; content := text |}].

(** The answer of the world to the main request. *)
Definition main_result (env : Env) (st : AppState) (text : string)
    : ApiResult :=
  completions_create env (model st) (expected_prompt st text).

(** Two states that agree on everything but the text field, the pending
    voice command and the utterance boundary. *)
Definition same_session (st1 st2 : AppState) : Prop :=
  apiKey st1 = apiKey st2 /\ model st1 = model st2 /\ chats st1 = chats st2
  /\ activeChatId st1 = activeChatId st2 /\ isLoading st1 = isLoading st2
  /\ isMuted st1 = isMuted st2 /\ ragRetriever st1 = ragRetriever st2
  /\ loadedDocuments st1 = loadedDocuments st2.

(** The sessions of a list other than the one with id [t], in order. *)
Definition other_sessions (t : option string) (cs : list Chat) : list Chat :=
  List.filter (fun c => negb (has_id t c)) cs.

(** [l1] is a suffix of [l2]. *)
Definition ends_with {A : Type} (l2 l1 : list A) : Prop :=
  exists before, l2 = before ++ l1.

(** ** Sample data *)

Definition msg (r : Role) (text : string) : Message :=
  {| role := r; content := text |}.

Definition chat1 : Chat :=
  {| id := "1700000000001"; title := "Weather";
     messages := [msg user "hi"; msg assistant "hello"] |}.

Definition chat2 : Chat :=
  {| id := "1700000000002"; title := "New Chat"; messages := [] |}.

(** Two sessions, the newer one active, a credential, nothing in flight. *)
Definition state0 : AppState :=
  {| apiKey := "sk-test"; model := "gpt-4o-mini";
     chats := [chat2; chat1]; activeChatId := Some "1700000000002";
     input := ""; isLoading := false; isMuted := false;
     voiceCommandToSend := None; ragRetriever := None;
     loadedDocuments := []; utteranceStartIndexRef := 0 |}.

Definition ops0 : list SessionOp :=
  [createSession "1700000000003"; deleteSession "1700000000003";
   deleteSession "1700000000002"; deleteSession "1700000000001";
   createSession "1700000000004"].

Definition file_a : File := {| file_name := "a.txt"; file_text := "first" |}.
Definition file_a' : File := {| file_name := "a.txt"; file_text := "second" |}.

(** A codec that knows the text of the empty list and of the two sample
    sessions. *)
Definition sample_json : string := "[chat2,chat1]".


Definition sample_parse (text : string) : option (list Chat) :=
  if (text =? "[]")%string then Some []
  else if (text =? sample_json)%string then Some [chat2; chat1]
  else None.

(** A store whose active id names no saved session. *)
Definition storage_dangling : gmap string string :=
  <[key_active := "1600000000000"]> (<[key_chats := sample_json]> ∅).

(** A world whose API answers every request with one choice. *)
Definition env0 : Env :=
  {| Date_now := "1700000000009";
     completions_create := fun _ _ => ApiResponse [Some "Sunny."];
     speechSynthesis := true |}.

(** A world whose API rejects every request. *)
Definition env_down : Env :=
  {| Date_now := "1700000000009";
     completions_create := fun _ _ => ApiError;
     speechSynthesis := true |}.

(** A world whose API rejects the title request and answers the others. *)
Definition env_title_down : Env :=
  {| Date_now := "1700000000009";
     completions_create := fun _ msgs =>
       match msgs with
       | [ {| role := user; content := _ |} ] => ApiError
       | _ => ApiResponse [Some "Sunny."]
       end;
     speechSynthesis := true |}.

(** A world whose API answers with an empty message. *)
Definition env_empty : Env :=
  {| Date_now := "1700000000009";
     completions_create := fun _ _ => ApiResponse [Some ""];
     speechSynthesis := true |}.

(** A world whose API answers every request with a text in quotes that has
    an apostrophe inside. *)
Definition env_quoted : Env :=
  {| Date_now := "1700000000009";
     completions_create := fun _ _ =>
       ApiResponse [Some (String "034" ("Today's weather" +:+ String "034" ""))];
     speechSynthesis := true |}.

(** [state0] with the older session, which has messages, active. *)
Definition state1 : AppState :=
  setActiveChatId (Some "1700000000001") state0.

(** [state1] with a retrieval index that returns two chunks. *)
Definition state_rag : AppState :=
  {| apiKey := "sk-test"; model := "gpt-4o-mini";
     chats := [chat2; chat1]; activeChatId := Some "1700000000001";
     input := ""; isLoading := false; isMuted := false;
     voiceCommandToSend := None;
     ragRetriever :=
       Some (fun _ => Some [ {| pageContent := "Paris is in France." |};
                             {| pageContent := "Lyon is in France." |} ]);
     loadedDocuments := [ {| name := "fr.txt"; doc_content := "..." |} ];
     utteranceStartIndexRef := 0 |}.

(** * Properties *)

(** Case analysis on the tests a handler runs, outermost first. *)
Ltac break_match :=
  match goal with
  | |- context [catchBlock ?e ?s ?c ?x] =>
      destruct (catchBlock e s c x) as [? ?]; simpl
  | |- context [match ?x with _ => _ end] =>
      lazymatch x with
      | context [match _ with _ => _ end] => fail
      | _ => destruct x eqn:?; simpl
      end
  end.

Ltac break_matches := repeat break_match.

(** Projections of a state pushed through its setters. *)
Ltac state_simpl :=
  cbn [apiKey model chats activeChatId input isLoading isMuted
       voiceCommandToSend ragRetriever loadedDocuments utteranceStartIndexRef
       setChats setActiveChatId setInput setIsLoading setVoiceCommandToSend
       setLoadedDocuments setUtteranceStartIndex
       final trace uncaught resolved throws] in *.

(** ** Session store *)

Lemma strict_eq_true (a : option string) (x : string) :
  strict_eq a x = true <-> a = Some x.
Proof.
  destruct a as [s|]; simpl.
  - rewrite String.eqb_eq. split; congruence.
  - split; discriminate.
Qed.

Lemma strict_eq_false (a : option string) (x : string) :
  strict_eq a x = false <-> a <> Some x.
Proof.
  rewrite <- strict_eq_true. destruct (strict_eq a x); split; congruence.
Qed.

Lemma has_id_true (x : option string) (c : Chat) :
  has_id x c = true <-> x = Some (id c).
Proof. unfold has_id. apply strict_eq_true. Qed.

Lemma filter_other_ids (x : string) (cs : list Chat) :
  map id (List.filter (fun chat => negb (has_id (Some x) chat)) cs)
  = List.filter (fun i => negb (x =? i)%string) (map id cs).
Proof.
  induction cs as [|c cs IH]; simpl; [reflexivity|].
  unfold has_id in *; simpl in *.
  destruct (x =? id c)%string; simpl; congruence.
Qed.

Lemma filter_absent_id (x : string) (cs : list Chat) :
  ~ In x (map id cs) ->
  List.filter (fun chat => negb (has_id (Some x) chat)) cs = cs.
Proof.
  induction cs as [|c cs IH]; simpl; intros Hx; [reflexivity|].
  unfold has_id in *; simpl in *.
  destruct (String.eqb_spec x (id c)) as [E|E]; simpl.
  - exfalso. apply Hx. left. symmetry. exact E.
  - rewrite IH; [reflexivity|]. intros H. apply Hx. right. exact H.
Qed.

Lemma setChats_same (st : AppState) : setChats (chats st) st = st.
Proof. destruct st; reflexivity. Qed.

Lemma handleNewChat_invariant (now : string) (st : AppState) :
  session_invariant (handleNewChat now st).
Proof.
  split; simpl.
  - split; discriminate.
  - intros a [= <-]. left. reflexivity.
Qed.

Lemma handleDeleteChat_invariant (chatId : string) (st : AppState) :
  session_invariant st -> session_invariant (handleDeleteChat chatId st).
Proof.
  intros [Hnull Hin]. unfold handleDeleteChat.
  destruct (strict_eq (activeChatId st) chatId) eqn:E.
  - simpl.
    destruct (List.filter _ (chats st)) as [|c rest]; simpl.
    + split; [tauto | discriminate].
    + split; [split; discriminate|]. intros a [= <-]. left. reflexivity.
  - apply strict_eq_false in E. split; simpl.
    + split.
      * intros Hn. rewrite (proj1 Hnull Hn). reflexivity.
      * intros Hf. destruct (activeChatId st) as [a|] eqn:Ha; [|reflexivity].
        exfalso. specialize (Hin a eq_refl).
        assert (In a (map id (List.filter
                  (fun chat => negb (has_id (Some chatId) chat)) (chats st)))) as Hi.
        { rewrite filter_other_ids. apply filter_In. split; [exact Hin|].
          destruct (String.eqb_spec chatId a) as [->|]; [congruence|reflexivity]. }
        rewrite Hf in Hi. exact Hi.
    + intros a Ha. rewrite filter_other_ids. apply filter_In.
      split; [apply Hin; exact Ha|].
      destruct (String.eqb_spec chatId a) as [->|]; [congruence|reflexivity].
Qed.

Lemma session_step_invariant (st : AppState) (op : SessionOp) :
  session_invariant st -> session_invariant (session_step st op).
Proof.
  destruct op; simpl; intros H.
  - apply handleNewChat_invariant.
  - apply handleDeleteChat_invariant, H.
Qed.

Lemma handleDeleteChat_ids (chatId : string) (st : AppState) :
  map id (chats (handleDeleteChat chatId st))
  = List.filter (fun i => negb (chatId =? i)%string) (map id (chats st)).
Proof.
  unfold handleDeleteChat.
  destruct (strict_eq (activeChatId st) chatId); simpl; apply filter_other_ids.
Qed.

Lemma session_step_NoDup (st : AppState) (op : SessionOp) :
  List.NoDup (map id (chats st)) ->
  clock_fresh [op] st ->
  List.NoDup (map id (chats (session_step st op))).
Proof.
  destruct op as [now|chatId]; simpl; intros Hnd [Hf _].
  - constructor; assumption.
  - rewrite handleDeleteChat_ids. apply List.NoDup_filter, Hnd.
Qed.

Lemma filter_none {A : Type} (f : A -> bool) (l : list A) :
  (forall x, In x l -> f x = false) -> List.filter f l = [].
Proof.
  induction l as [|x l IH]; simpl; intros H; [reflexivity|].
  rewrite (H x (or_introl eq_refl)). apply IH. intros y Hy. apply H. right. exact Hy.
Qed.

Lemma active_sessions_unique (st : AppState) :
  List.NoDup (map id (chats st)) -> length (active_sessions st) <= 1.
Proof.
  unfold active_sessions. generalize (activeChatId st) as a.
  induction (chats st) as [|c cs IH]; simpl; intros a Hnd; [lia|].
  inversion Hnd as [|? ? Hc Hcs]; subst.
  destruct (has_id a c) eqn:E; simpl; [|apply IH; exact Hcs].
  apply strict_eq_true in E.
  assert (List.filter (has_id a) cs = []) as ->; [|simpl; lia].
  apply filter_none. intros c' Hc'.
  destruct (has_id a c') eqn:E'; [|reflexivity].
  apply strict_eq_true in E'. exfalso. apply Hc.
  apply in_map_iff. exists c'. split; [congruence|exact Hc'].
Qed.

Lemma active_sessions_inhabited (st : AppState) :
  session_invariant st -> chats st <> [] -> 1 <= length (active_sessions st).
Proof.
  intros [Hnull Hin] Hne. unfold active_sessions.
  destruct (activeChatId st) as [a|] eqn:Ha.
  - specialize (Hin a eq_refl). apply in_map_iff in Hin as (c & Hc & Hcin).
    assert (In c (List.filter (has_id (Some a)) (chats st))) as Hf.
    { apply filter_In. split; [exact Hcin|]. apply strict_eq_true. congruence. }
    destruct (List.filter _ _); [destruct Hf | simpl; lia].
  - exfalso. apply Hne, Hnull. reflexivity.
Qed.

(** C5 (amended). Over every sequence of [createSession] and [deleteSession] steps from
    a state that satisfies the session invariant, the invariant holds again
    at the end: the active id is null exactly when the list is empty, and
    otherwise it is the id of a session of the list.  When moreover the ids
    are distinct at the start and every created session reads a clock value
    not in use, at most one session of the list is the active one, and
    exactly one when the list is not empty. *)
Theorem session_ops_one_active (ops : list SessionOp) (st : AppState) :
  session_invariant st ->
  session_invariant (run_session_ops ops st)
  /\ (List.NoDup (map id (chats st)) -> clock_fresh ops st ->
      length (active_sessions (run_session_ops ops st)) <= 1
      /\ (chats (run_session_ops ops st) <> [] ->
          length (active_sessions (run_session_ops ops st)) = 1)).
Proof.
  revert st. induction ops as [|op ops IH]; intros st Hinv.
  - simpl. split; [exact Hinv|]. intros Hnd _.
    pose proof (active_sessions_unique st Hnd).
    split; [assumption|]. intros Hne.
    pose proof (active_sessions_inhabited st Hinv Hne). lia.
  - simpl. destruct (IH (session_step st op) (session_step_invariant st op Hinv))
      as [H1 H2].
    split; [exact H1|]. intros Hnd [Hf Hrest].
    apply H2; [|exact Hrest].
    apply session_step_NoDup; [exact Hnd|]. simpl. split; [exact Hf|exact I].
Qed.

Lemma state0_invariant : session_invariant state0.
Proof.
  split.
  - split; discriminate.
  - intros a [= <-]. simpl. left. reflexivity.
Qed.

Lemma session_ops_one_active_witness :
  session_invariant (run_session_ops ops0 state0)
  /\ length (active_sessions (run_session_ops ops0 state0)) = 1.
Proof.
  destruct (session_ops_one_active ops0 state0 state0_invariant) as [H1 H2].
  split; [exact H1|].
  apply H2.
  - simpl. repeat constructor; simpl; intuition discriminate.
  - simpl. intuition discriminate.
  - vm_compute. discriminate.
Defined.

(** C5, as stated, fails: from a valid state with distinct ids, two sessions
    created at one clock value both carry the active id. *)
Lemma createSession_same_clock_two_active :
  session_invariant state0
  /\ List.NoDup (map id (chats state0))
  /\ length (active_sessions
               (run_session_ops
                  [createSession "1700000000003";
                   createSession "1700000000003"] state0)) = 2.
Proof.
  split; [exact state0_invariant|]. split; [|reflexivity].
  simpl. repeat constructor; simpl; intuition discriminate.
Qed.

Lemma find_filter_other_id (a : option string) (x : string) (cs : list Chat) :
  a <> Some x ->
  find (has_id a)
    (List.filter (fun chat => negb (has_id (Some x) chat)) cs)
  = find (has_id a) cs.
Proof.
  intros Hne. induction cs as [|c cs IH]; simpl; [reflexivity|].
  destruct (has_id (Some x) c) eqn:Ex; simpl.
  - destruct (has_id a c) eqn:Ea; [|exact IH].
    apply has_id_true in Ex, Ea. congruence.
  - rewrite IH. reflexivity.
Qed.

(** C7. [deleteSession chatId] removes the sessions with that id and keeps
    the others in order.  If the deleted id was the active one, the head of
    the remaining list becomes active, or none when nothing remains; if it
    was not, the active id and the active session are unchanged; and if no
    session carries the id, a state satisfying the session invariant is left
    as it was. *)
Theorem handleDeleteChat_activation (chatId : string) (st : AppState) :
  let st' := handleDeleteChat chatId st in
  chats st'
  = List.filter (fun chat => negb (has_id (Some chatId) chat)) (chats st)
  /\ (activeChatId st = Some chatId ->
      activeChatId st' = option_map id (head (chats st')))
  /\ (activeChatId st <> Some chatId ->
      activeChatId st' = activeChatId st /\ activeChat st' = activeChat st)
  /\ (~ In chatId (map id (chats st)) -> session_invariant st -> st' = st).
Proof.
  unfold handleDeleteChat. repeat split.
  - destruct (strict_eq (activeChatId st) chatId); reflexivity.
  - intros Ha. apply strict_eq_true in Ha. rewrite Ha. simpl.
    destruct (List.filter _ (chats st)); reflexivity.
  - apply strict_eq_false in H. rewrite H. reflexivity.
  - pose proof H as Hne. apply strict_eq_false in H. rewrite H.
    unfold activeChat. state_simpl. apply find_filter_other_id, Hne.
  - intros Hnot [_ Hin].
    assert (strict_eq (activeChatId st) chatId = false) as ->.
    { apply strict_eq_false. intros Ha. apply Hnot, Hin, Ha. }
    rewrite (filter_absent_id _ _ Hnot). apply setChats_same.
Qed.

Lemma handleDeleteChat_activation_witness :
  activeChatId (handleDeleteChat "1700000000002" state0) = Some "1700000000001"
  /\ activeChatId (handleDeleteChat "1700000000001" state0)
     = Some "1700000000002"
  /\ handleDeleteChat "1700000000009" state0 = state0.
Proof.
  split; [|split].
  - apply (proj1 (proj2 (handleDeleteChat_activation "1700000000002" state0))).
    reflexivity.
  - apply (proj1 (proj2 (proj2
             (handleDeleteChat_activation "1700000000001" state0)))).
    discriminate.
  - apply (proj2 (proj2 (proj2
             (handleDeleteChat_activation "1700000000009" state0)))).
    + simpl. intuition discriminate.
    + exact state0_invariant.
Defined.

(** ** Document store *)

Lemma addDocuments_prefix (newDocs prevDocs : list LoadedDocument) :
  exists added, addDocuments newDocs prevDocs = prevDocs ++ added
                /\ forall d, In d added ->
                     In d newDocs /\ ~ In (name d) (names prevDocs).
Proof.
  unfold addDocuments. eexists. split; [reflexivity|].
  intros d Hd. apply filter_In in Hd as [Hin Hf]. split; [exact Hin|].
  intros Hn. apply negb_true_iff in Hf.
  assert (existsb (String.eqb (name d)) (map name prevDocs) = true) as E.
  { apply existsb_exists. exists (name d). split; [exact Hn|apply String.eqb_refl]. }
  congruence.
Qed.

(** X13. An upload never touches what the store holds: the entries from
    before stay where they were, content unchanged, and nothing is added
    under a name the store already had. *)
Lemma handleFileUpload_existing_wins (files : list File) (st : AppState) :
  exists added,
    loadedDocuments (final (handleFileUpload files st))
    = loadedDocuments st ++ added
    /\ forall d, In d added -> ~ In (name d) (names (loadedDocuments st)).
Proof.
  unfold handleFileUpload.
  destruct (negb (truthy (apiKey st))).
  - exists []. simpl. rewrite app_nil_r. split; [reflexivity|]. intros d [].
  - destruct files as [|f files].
    + exists []. simpl. rewrite app_nil_r. split; [reflexivity|]. intros d [].
    + destruct (addDocuments_prefix (map toDocument (f :: files))
                  (loadedDocuments st)) as (added & E & H).
      exists added. split; [exact E|]. intros d Hd. apply (H d Hd).
Qed.

Lemma handleFileUpload_docs (files : list File) (st : AppState) :
  truthy (apiKey st) = true ->
  loadedDocuments (final (handleFileUpload files st))
  = addDocuments (map toDocument files) (loadedDocuments st)
  /\ apiKey (final (handleFileUpload files st)) = apiKey st.
Proof.
  intros Hk. unfold handleFileUpload. rewrite Hk. simpl.
  destruct files; simpl; [|split; reflexivity].
  unfold addDocuments. simpl. rewrite app_nil_r. split; reflexivity.
Qed.

(** X14. Uploading the same single file a second time changes nothing, and
    after the first upload the store holds its name exactly once unless it
    held it more often before. *)
Lemma handleFileUpload_twice (f : File) (st : AppState) :
  truthy (apiKey st) = true ->
  let st1 := final (handleFileUpload [f] st) in
  loadedDocuments (final (handleFileUpload [f] st1)) = loadedDocuments st1
  /\ length (List.filter (fun d => (name d =? file_name f)%string)
               (loadedDocuments st1))
     = Nat.max 1 (length (List.filter (fun d => (name d =? file_name f)%string)
                            (loadedDocuments st))).
Proof.
  intros Hk st1.
  destruct (handleFileUpload_docs [f] st Hk) as [E1 K1]. fold st1 in E1, K1.
  rewrite <- K1 in Hk.
  destruct (handleFileUpload_docs [f] st1 Hk) as [E2 _].
  rewrite E2, E1. clear E1 E2 K1 Hk st1.
  unfold addDocuments. simpl.
  destruct (existsb (String.eqb (file_name f)) (map name (loadedDocuments st)))
    eqn:E; simpl.
  - rewrite !app_nil_r, E. simpl. rewrite !app_nil_r. split; [reflexivity|].
    apply existsb_exists in E as (n & Hn & En). apply String.eqb_eq in En. subst n.
    apply in_map_iff in Hn as (d & Hd & Hin).
    assert (In d (List.filter (fun d => (name d =? file_name f)%string)
                    (loadedDocuments st))) as Hf.
    { apply filter_In. split; [exact Hin|]. apply String.eqb_eq. exact Hd. }
    destruct (List.filter _ _); [destruct Hf|simpl; lia].
  - rewrite map_app. simpl. rewrite existsb_app. simpl.
    rewrite String.eqb_refl, orb_true_r. simpl. rewrite app_nil_r.
    split; [reflexivity|].
    rewrite List.filter_app, length_app. simpl. rewrite String.eqb_refl. simpl.
    rewrite (filter_none (fun d => (name d =? file_name f)%string)
               (loadedDocuments st)); [reflexivity|].
    intros d Hd. destruct (String.eqb_spec (name d) (file_name f)) as [En|]; [|reflexivity].
    exfalso. assert (existsb (String.eqb (file_name f))
                       (map name (loadedDocuments st)) = true) as E'.
    { apply existsb_exists. exists (name d). split.
      - apply in_map. exact Hd.
      - apply String.eqb_eq. symmetry. exact En. }
    congruence.
Qed.

Lemma NoDup_app_disjoint {A : Type} (l k : list A) :
  List.NoDup (l ++ k) -> forall a, In a l -> ~ In a k.
Proof.
  induction l as [|x l IH]; simpl; intros H a Ha; [destruct Ha|].
  inversion H as [|? ? Hx Hl]; subst. destruct Ha as [->|Ha].
  - intros Hk. apply Hx, in_or_app. right. exact Hk.
  - apply IH; assumption.
Qed.

(** X15. The names of the store stay distinct over every upload whose files
    have distinct names. *)
Lemma handleFileUpload_NoDup (files : list File) (st : AppState) :
  List.NoDup (names (loadedDocuments st)) ->
  List.NoDup (map file_name files) ->
  List.NoDup (names (loadedDocuments (final (handleFileUpload files st)))).
Proof.
  intros Hst Hfiles. unfold handleFileUpload.
  destruct (negb (truthy (apiKey st))); [exact Hst|].
  destruct files as [|f files]; [exact Hst|].
  cbn [final resolved loadedDocuments setLoadedDocuments].
  remember (f :: files) as fs eqn:Efs. clear Efs f files.
  unfold addDocuments, names. rewrite map_app.
  induction fs as [|f fs IH]; simpl.
  - rewrite app_nil_r. exact Hst.
  - inversion Hfiles as [|? ? Hf Hfs]; subst.
    destruct (existsb (String.eqb (file_name f)) (map name (loadedDocuments st)))
      eqn:E; simpl; [apply IH; exact Hfs|].
    specialize (IH Hfs).
    apply List.NoDup_app.
    + exact Hst.
    + constructor; [|exact (List.NoDup_app_remove_l _ _ IH)].
      intros Hin. apply Hf. apply in_map_iff in Hin as (d & Hd & Hdin).
      apply filter_In in Hdin as [Hdin _].
      apply in_map_iff in Hdin as (f' & <- & Hf'). simpl in Hd.
      rewrite <- Hd. apply in_map. exact Hf'.
    + intros n Hn [Hh|Ht].
      * subst n. assert (existsb (String.eqb (file_name f))
                           (map name (loadedDocuments st)) = true) as E'.
        { apply existsb_exists. exists (file_name f).
          split; [exact Hn|apply String.eqb_refl]. }
        congruence.
      * exact (NoDup_app_disjoint _ _ IH n Hn Ht).
Qed.

(** C8. One upload that holds two files of the same name, into a store that
    does not know the name, adds both: only names already in the store are
    filtered out, so the store ends with two entries named [a.txt]. *)
Theorem handleFileUpload_same_name_in_one_batch :
  loadedDocuments (final (handleFileUpload [file_a; file_a'] state0))
  = [ {| name := "a.txt"; doc_content := "first" |};
      {| name := "a.txt"; doc_content := "second" |} ]
  /\ ~ List.NoDup
         (names (loadedDocuments
                   (final (handleFileUpload [file_a; file_a'] state0)))).
Proof.
  split; [reflexivity|].
  intros H. simpl in H. inversion H as [|? ? Hnot _]. apply Hnot. left. reflexivity.
Qed.

(** ** Persistence *)

Section StorageProperties.

Variable JSON_stringify : list Chat -> string.
Variable JSON_parse : string -> option (list Chat).






End StorageProperties.




(** ** Strings *)

Lemma trimStart_blank (s : string) : blank s = true -> trimStart s = "".
Proof.
  induction s as [|c r IH]; simpl; [reflexivity|].
  intros H. apply andb_true_iff in H as [Hc Hr]. rewrite Hc. apply IH, Hr.
Qed.

Lemma trimStart_not_blank (s : string) :
  blank s = false ->
  exists c r, trimStart s = String c r /\ isWhiteSpace c = false.
Proof.
  induction s as [|c r IH]; simpl; [discriminate|].
  destruct (isWhiteSpace c) eqn:Hc; simpl.
  - exact IH.
  - intros _. exists c, r. split; [reflexivity|exact Hc].
Qed.

Lemma trimEnd_keeps_head (c : ascii) (r : string) :
  isWhiteSpace c = false -> trimEnd (String c r) = String c (trimEnd r).
Proof. intros H. simpl. rewrite H, andb_false_r. reflexivity. Qed.

(** [text.trim() === ''] holds exactly for the blank strings. *)
Lemma trim_blank (s : string) : trim s = "" <-> blank s = true.
Proof.
  unfold trim. split.
  - intros H. destruct (blank s) eqn:B; [reflexivity|].
    destruct (trimStart_not_blank s B) as (c & r & E & Hc).
    rewrite E, (trimEnd_keeps_head c r Hc) in H. discriminate.
  - intros B. rewrite (trimStart_blank s B). reflexivity.
Qed.

Lemma trim_eqb_blank (s : string) : (trim s =? "")%string = blank s.
Proof.
  destruct (blank s) eqn:B.
  - apply String.eqb_eq, trim_blank, B.
  - apply String.eqb_neq. intros H. apply trim_blank in H. congruence.
Qed.

Lemma truthy_true (s : string) : truthy s = true <-> s <> "".
Proof.
  unfold truthy. rewrite negb_true_iff. apply String.eqb_neq.
Qed.

Lemma truthy_false (s : string) : truthy s = false <-> s = "".
Proof.
  unfold truthy. rewrite negb_false_iff. apply String.eqb_eq.
Qed.

Lemma ci_eqb_toLowerCase (a : ascii) : ci_eqb a (toLowerCase_ascii a) = true.
Proof. destruct a as [[] [] [] [] [] [] [] []]; reflexivity. Qed.

Lemma toLowerCase_send_word (word : string) :
  toLowerCase word = "send" \/ toLowerCase word = "sent" ->
  send_word_at_end word = true.
Proof.
  destruct word as [|a [|b [|c [|d [|e r]]]]]; simpl;
    intros [H|H]; try discriminate H;
    injection H as Ha Hb Hc Hd;
    rewrite <- Ha, <- Hb, <- Hc, <- Hd, ?ci_eqb_toLowerCase, ?orb_true_r;
    reflexivity.
Qed.

Lemma length_append (s t : string) :
  String.length (s +:+ t) = String.length s + String.length t.
Proof. induction s as [|c s IH]; simpl; [reflexivity|]. rewrite IH. reflexivity. Qed.

Lemma send_word_length (s : string) :
  send_word_at_end s = true -> String.length s = 4.
Proof.
  destruct s as [|a [|b [|c [|d [|e r]]]]]; simpl; try discriminate.
  reflexivity.
Qed.

Lemma sendCommandRegex_exec_suffix (before : string) (w : ascii) (word : string) :
  isWhiteSpace w = true -> send_word_at_end word = true ->
  sendCommandRegex_exec (before +:+ String w word) = Some before.
Proof.
  intros Hw Hword. induction before as [|c r IH]; simpl.
  - rewrite Hw, Hword. reflexivity.
  - assert (send_word_at_end (r +:+ String w word) = false) as ->.
    { destruct (send_word_at_end (r +:+ String w word)) eqn:E; [|reflexivity].
      apply send_word_length in E. rewrite length_append in E. simpl in E.
      apply send_word_length in Hword. lia. }
    rewrite andb_false_r, IH. reflexivity.
Qed.

Lemma trimStart_lead (s : string) :
  exists lead, s = lead +:+ trimStart s /\ blank lead = true.
Proof.
  induction s as [|c r (lead & E & B)]; [exists ""; split; reflexivity|].
  cbn [trimStart]. destruct (isWhiteSpace c) eqn:Hc.
  - exists (String c lead).
    split; [change (String c r = String c (lead +:+ trimStart r));
            f_equal; exact E|].
    simpl. rewrite Hc, B. reflexivity.
  - exists "". split; reflexivity.
Qed.

Lemma trimEnd_empty_blank (s : string) : trimEnd s = "" -> blank s = true.
Proof.
  induction s as [|c r IH]; [reflexivity|]. cbn [trimEnd blank].
  destruct (String.eqb_spec (trimEnd r) "") as [E|E]; cbn [andb].
  - destruct (isWhiteSpace c); [intros _; exact (IH E)|discriminate].
  - discriminate.
Qed.

Lemma trimEnd_trail (s : string) :
  exists trail, s = trimEnd s +:+ trail /\ blank trail = true.
Proof.
  induction s as [|c r (trail & E & B)]; [exists ""; split; reflexivity|].
  cbn [trimEnd].
  destruct ((trimEnd r =? "")%string && isWhiteSpace c) eqn:Hc.
  - exists (String c r). split; [reflexivity|].
    apply andb_true_iff in Hc as [Hr Hc]. apply String.eqb_eq in Hr.
    simpl. rewrite Hc. exact (trimEnd_empty_blank r Hr).
  - exists trail.
    split; [change (String c r = String c (trimEnd r +:+ trail));
            f_equal; exact E|exact B].
Qed.

Lemma trimEnd_last (s r : string) (c : ascii) :
  trimEnd s = r +:+ String c "" -> isWhiteSpace c = false.
Proof.
  revert r. induction s as [|a t IH]; intros r; cbn [trimEnd].
  - destruct r; discriminate.
  - destruct ((trimEnd t =? "")%string && isWhiteSpace a) eqn:Hc.
    + destruct r; discriminate.
    + destruct r as [|b r]; simpl.
      * intros [= -> Ht]. rewrite Ht in Hc. simpl in Hc. exact Hc.
      * intros [= _ Ht]. exact (IH r Ht).
Qed.

(** What [trim] does: it takes white space off both ends, and what is left
    neither starts nor ends with white space. *)
Lemma trim_spec (s : string) :
  (exists lead trail,
      s = lead +:+ trim s +:+ trail
      /\ blank lead = true /\ blank trail = true)
  /\ (forall c r, trim s = String c r -> isWhiteSpace c = false)
  /\ (forall r c, trim s = r +:+ String c "" -> isWhiteSpace c = false).
Proof.
  unfold trim. split; [|split].
  - destruct (trimStart_lead s) as (lead & E & B).
    destruct (trimEnd_trail (trimStart s)) as (trail & E' & B').
    exists lead, trail. split; [|split; assumption].
    rewrite <- E'. exact E.
  - intros c r. destruct (blank s) eqn:B.
    + rewrite (trimStart_blank s B). discriminate.
    + destruct (trimStart_not_blank s B) as (c' & r' & -> & Hc).
      rewrite (trimEnd_keeps_head c' r' Hc). intros [= <- _]. exact Hc.
  - intros r c. apply trimEnd_last.
Qed.

Lemma removeQuotes_filter (s : string) :
  removeQuotes s
  = string_of_list_ascii
      (List.filter (fun a => negb (Ascii.eqb a "034" || Ascii.eqb a "039"))
         (list_ascii_of_string s)).
Proof.
  induction s as [|c r IH]; [reflexivity|]. cbn [removeQuotes].
  simpl list_ascii_of_string. cbn [List.filter].
  change dquote with "034"%char. change squote with "039"%char.
  destruct (Ascii.eqb c "034" || Ascii.eqb c "039"); simpl; rewrite IH;
    reflexivity.
Qed.

(** The new title in terms of the characters of the returned text. *)
Lemma newTitleOf_spec (content : option string) :
  newTitleOf content
  = match content with
    | Some s =>
        match List.filter
                (fun a => negb (Ascii.eqb a "034" || Ascii.eqb a "039"))
                (list_ascii_of_string s) with
        | [] => "Chat"
        | kept => string_of_list_ascii kept
        end
    | None => "Chat"
    end.
Proof.
  destruct content as [s|]; [|reflexivity]. unfold newTitleOf.
  rewrite removeQuotes_filter.
  destruct (List.filter _ (list_ascii_of_string s)); reflexivity.
Qed.

(** ** Rejected calls of [executeSend] *)

(** C4. A call of [executeSend] with blank text, or while a request is in
    flight, returns with the state as it was and without any event.  A call
    without a credential leaves the state as it was and issues no network
    call; it shows the prompt for the key, unless the text is blank or a
    request is in flight, in which case it is silent as well. *)
Theorem executeSend_rejections (env : Env) (st : AppState) (text : string) :
  (blank text = true \/ isLoading st = true ->
   executeSend env st text = resolved st [])
  /\ (apiKey st = "" ->
      final (executeSend env st text) = st
      /\ uncaught (executeSend env st text) = false
      /\ List.filter is_network_call (trace (executeSend env st text)) = []
      /\ trace (executeSend env st text)
         = if blank text || isLoading st then []
           else [Alert "Please enter your OpenAI API key."]).
Proof.
  unfold executeSend. rewrite trim_eqb_blank. split.
  - intros [-> | ->]; [reflexivity|]. rewrite orb_true_r. reflexivity.
  - intros ->. destruct (blank text || isLoading st); simpl; repeat split.
Qed.

Lemma executeSend_rejections_witness :
  executeSend env_down state0 "  "
  = resolved state0 []
  /\ executeSend env_down (setIsLoading true state0) "hi"
     = resolved (setIsLoading true state0) []
  /\ trace (executeSend env_down
              (initialState ∅) "hi")
     = [Alert "Please enter your OpenAI API key."].
Proof.
  split; [|split].
  - apply (proj1 (executeSend_rejections _ state0 "  ")). left. reflexivity.
  - apply (proj1 (executeSend_rejections _ (setIsLoading true state0) "hi")).
    right. reflexivity.
  - apply (proj2 (executeSend_rejections _ (initialState ∅) "hi")).
    reflexivity.
Defined.

(** ** Conversation engine: sends that reach the API *)

Lemma find_map_has_id (x : option string) (g : Chat -> Chat) (cs : list Chat) :
  (forall c, id (g c) = id c) ->
  find (has_id x) (map (fun c => if has_id x c then g c else c) cs)
  = option_map g (find (has_id x) cs).
Proof.
  intros Hg. induction cs as [|c cs IH]; simpl; [reflexivity|].
  destruct (has_id x c) eqn:E.
  - unfold has_id in *. rewrite Hg, E. reflexivity.
  - rewrite E. exact IH.
Qed.

Lemma find_appendMessage (t : string) (m : Message) (cs : list Chat) :
  find (has_id (Some t)) (appendMessage t m cs)
  = option_map (fun c => {| id := id c; title := title c;
                            messages := messages c ++ [m] |})
      (find (has_id (Some t)) cs).
Proof. apply find_map_has_id. reflexivity. Qed.

Lemma find_renameChat (t newTitle : string) (cs : list Chat) :
  find (has_id (Some t)) (renameChat t newTitle cs)
  = option_map (fun c => {| id := id c; title := newTitle;
                            messages := messages c |})
      (find (has_id (Some t)) cs).
Proof. apply find_map_has_id. reflexivity. Qed.

(** What [resolveTarget] returns: the target holds the history and the user
    message, is the active session of the new state and is found in its list;
    the other fields are those of the old state. *)
Lemma resolveTarget_spec (env : Env) (st : AppState) (um : Message)
    (target : Chat) (st2 : AppState) :
  resolveTarget env st um = Some (target, st2) ->
  messages target = target_history st ++ [um]
  /\ title target = target_title st
  /\ activeChatId st2 = Some (id target)
  /\ find (has_id (Some (id target))) (chats st2) = Some target
  /\ st2 = setChats (chats st2) (setActiveChatId (Some (id target)) st).
Proof.
  unfold resolveTarget, target_history, target_title, activeChat.
  destruct (activeChatId st) as [a|] eqn:Ha; simpl.
  - destruct (truthy a) eqn:Ht.
    + destruct (find (has_id (Some a)) (chats st)) as [c|] eqn:Hf; [|discriminate].
      intros [= <- <-]. state_simpl. simpl.
      pose proof (find_some _ _ Hf) as [_ Hid]. apply has_id_true in Hid.
      injection Hid as Hid. subst a.
      repeat split.
      * exact Ha.
      * rewrite (find_map_has_id (Some (id c))
                   (fun c0 => {| id := id c0; title := title c0;
                                 messages := messages c ++ [um] |}))
          by reflexivity.
        rewrite Hf. reflexivity.
      * destruct st; simpl in *. subst. reflexivity.
    + intros [= <- <-]. state_simpl. simpl. repeat split.
      unfold has_id. simpl. rewrite String.eqb_refl. reflexivity.
  - intros [= <- <-]. state_simpl. simpl. repeat split.
    unfold has_id. simpl. rewrite String.eqb_refl. reflexivity.
Qed.

Lemma resolveTarget_resolves (env : Env) (st : AppState) (um : Message) :
  target_resolves st -> resolveTarget env st um <> None.
Proof.
  unfold target_resolves, resolveTarget, activeChat.
  destruct (activeChatId st) as [a|]; simpl; [|discriminate].
  destruct (truthy a); [|discriminate].
  intros H. destruct (find (has_id (Some a)) (chats st)); [discriminate|].
  exfalso. apply H; reflexivity.
Qed.

Lemma accepted_tests (st : AppState) (text : string) :
  accepted st text ->
  (trim text =? "")%string || isLoading st = false
  /\ negb (truthy (apiKey st)) = false.
Proof.
  intros (Hb & Hl & Hk). rewrite trim_eqb_blank, Hb, Hl. split; [reflexivity|].
  apply negb_false_iff, truthy_true, Hk.
Qed.

(** A send either fails one of its preconditions, gets no context or finds
    no target, and then issues no completion request at all; or it runs the
    [try] block. *)
Lemma executeSend_cases (env : Env) (st : AppState) (text : string) :
  (~ (accepted st text /\ retrieval_answers st text /\ target_resolves st)
   /\ forall site m p,
        ~ In (CompletionsCreate site m p) (trace (executeSend env st text)))
  \/ (exists target st2,
        accepted st text /\ retrieval_answers st text
        /\ resolveTarget env (setIsLoading true (setInput "" st))
             {| role := user; content := text |} = Some (target, st2)
        /\ executeSend env st text
           = let x := catchBlock env st target
                        (tryBlock env st text target
                           (systemMessage (retrieved_context st text)
                            :: messages target) (chats st2)) in
             resolved (setIsLoading false (setChats (fst x) st2))
               (retrieval_events st text ++ snd x)).
Proof.
  unfold executeSend, retrieved_context, retrieval_events.
  destruct ((trim text =? "")%string || isLoading st) eqn:E1.
  { left. split; [|intros ? ? ? []]. intros (Hacc & _).
    apply accepted_tests in Hacc as [Hacc _]. congruence. }
  destruct (negb (truthy (apiKey st))) eqn:E2.
  { left. split; [|simpl; intros ? ? ? [H|[]]; discriminate H].
    intros (Hacc & _). apply accepted_tests in Hacc as [_ Hacc]. congruence. }
  assert (accepted st text) as Hacc.
  { rewrite trim_eqb_blank in E1. apply orb_false_iff in E1 as [Hb Hl].
    repeat split; try assumption.
    apply truthy_true. apply negb_false_iff in E2. exact E2. }
  assert (resolveTarget env (setIsLoading true (setInput "" st))
            {| role := user; content := text |} = None ->
          ~ (accepted st text /\ retrieval_answers st text
             /\ target_resolves st)) as Hnone.
  { intros Hn (_ & _ & Hres).
    exact (resolveTarget_resolves env (setIsLoading true (setInput "" st))
             _ Hres Hn). }
  destruct (ragRetriever st) as [retriever|] eqn:Er.
  - destruct (retriever text) as [docs|] eqn:Ed; simpl.
    + destruct (resolveTarget env _ _) as [[target st2]|] eqn:Et.
      * right. exists target, st2. repeat split; try apply Hacc.
        -- intros r' Hr'. rewrite Hr' in Er. injection Er as ->. congruence.
        -- destruct (catchBlock _ _ _ _). reflexivity.
      * left. split; [apply Hnone; reflexivity|].
        simpl. intros ? ? ? [H|[]]; discriminate H.
    + left. split; [|simpl; intros ? ? ? [H|[]]; discriminate H].
      intros (_ & Hret & _). exact (Hret retriever Er Ed).
  - destruct (resolveTarget env _ _) as [[target st2]|] eqn:Et.
    + right. exists target, st2. repeat split; try apply Hacc.
      * intros r' Hr'. congruence.
      * destruct (catchBlock _ _ _ _). reflexivity.
    + left. split; [apply Hnone; reflexivity|]. intros ? ? ? [].
Qed.

(** The [try] and [catch] blocks in closed form, by the outcome of the two
    requests. *)
Lemma try_catch_cases (env : Env) (st : AppState) (text : string)
    (target : Chat) (prompt : list Message) (cs : list Chat) :
  let first := Nat.eqb (length (messages target)) 1 in
  let titleRes := completions_create env "gpt-4o" (title_request text) in
  let mainRes := completions_create env (model st) prompt in
  let titleEv := CompletionsCreate TitleCall "gpt-4o" (title_request text) in
  let mainEv := CompletionsCreate MainCall (model st) prompt in
  let failEvs := ConsoleError "Error calling OpenAI API:"
                 :: speak env st fallbackText in
  let fallback := {| role := assistant; content := fallbackText |} in
  let cs2 := if first
             then renameChat (id target) (newTitleOf (first_content titleRes)) cs
             else cs in
  let tr := if first then [titleEv] else [] in
  catchBlock env st target (tryBlock env st text target prompt cs)
  = if first && api_fails titleRes then
      (appendMessage (id target) fallback cs, titleEv :: failEvs)
    else if api_fails mainRes then
      (appendMessage (id target) fallback cs2, tr ++ mainEv :: failEvs)
    else if truthy_opt (first_content mainRes) then
      (appendMessage (id target)
         {| role := assistant; content := default "" (first_content mainRes) |}
         cs2,
       tr ++ mainEv :: speak env st (default "" (first_content mainRes)))
    else (cs2, tr ++ [mainEv]).
Proof.
  unfold catchBlock, tryBlock, title_request, api_fails, first_content.
  destruct (Nat.eqb (length (messages target)) 1); simpl.
  - destruct (completions_create env "gpt-4o" _) as [|[|c ?]]; simpl;
      try reflexivity.
    destruct (completions_create env (model st) prompt) as [|[|c' ?]]; simpl;
      try reflexivity.
    destruct (truthy_opt c'); reflexivity.
  - destruct (completions_create env (model st) prompt) as [|[|c' ?]]; simpl;
      try reflexivity.
    destruct (truthy_opt c'); reflexivity.
Qed.

Lemma first_exchange_eqb {A : Type} (l : list A) (x : A) :
  Nat.eqb (length (l ++ [x])) 1 = match l with [] => true | _ => false end.
Proof.
  destruct l as [|a l]; simpl; [reflexivity|].
  rewrite length_app. simpl. destruct (length l); reflexivity.
Qed.

(** The outcome of a send that reaches the [try] block, in closed form, with
    the target described by the state before the send. *)
Lemma executeSend_outcome (env : Env) (st : AppState) (text : string) :
  (~ (accepted st text /\ retrieval_answers st text /\ target_resolves st)
   /\ forall site m p,
        ~ In (CompletionsCreate site m p) (trace (executeSend env st text)))
  \/ (accepted st text /\ retrieval_answers st text /\ target_resolves st
      /\ exists target st2,
        messages target
        = target_history st ++ [{| role := user; content := text |}]
        /\ title target = target_title st
        /\ activeChatId st2 = Some (id target)
        /\ find (has_id (Some (id target))) (chats st2) = Some target
        /\ let titleEv :=
             CompletionsCreate TitleCall "gpt-4o" (title_request text) in
           let mainEv :=
             CompletionsCreate MainCall (model st) (expected_prompt st text) in
           let failEvs := ConsoleError "Error calling OpenAI API:"
                          :: speak env st fallbackText in
           let fallback := {| role := assistant; content := fallbackText |} in
           let reply := default "" (first_content (main_result env st text)) in
           let cs2 :=
             if first_exchange st
             then renameChat (id target)
                    (newTitleOf (first_content (title_result env text)))
                    (chats st2)
             else chats st2 in
           let tr := if first_exchange st then [titleEv] else [] in
           executeSend env st text
           = if first_exchange st && api_fails (title_result env text) then
               resolved
                 (setIsLoading false
                    (setChats (appendMessage (id target) fallback (chats st2))
                       st2))
                 (retrieval_events st text ++ titleEv :: failEvs)
             else if api_fails (main_result env st text) then
               resolved
                 (setIsLoading false
                    (setChats (appendMessage (id target) fallback cs2) st2))
                 (retrieval_events st text ++ tr ++ mainEv :: failEvs)
             else if truthy_opt (first_content (main_result env st text)) then
               resolved
                 (setIsLoading false
                    (setChats
                       (appendMessage (id target)
                          {| role := assistant; content := reply |} cs2) st2))
                 (retrieval_events st text ++ tr ++ mainEv
                  :: speak env st reply)
             else
               resolved (setIsLoading false (setChats cs2 st2))
                 (retrieval_events st text ++ tr ++ [mainEv])).
Proof.
  destruct (executeSend_cases env st text)
    as [H|(target & st2 & Hacc & Hret & Hres & Hex)]; [left; exact H|].
  right. split; [exact Hacc|]. split; [exact Hret|].
  destruct (resolveTarget_spec _ _ _ _ _ Hres) as (Hm & Ht & Ha & Hf & _).
  change (target_history _) with (target_history st) in Hm.
  change (target_title _) with (target_title st) in Ht.
  split.
  { unfold target_resolves. intros Htr Hnone.
    unfold resolveTarget in Hres. state_simpl. unfold activeChat in Hnone.
    destruct (activeChatId st) as [a|]; [|discriminate].
    simpl in Htr. rewrite Htr in Hres. rewrite Hnone in Hres. discriminate. }
  exists target, st2. repeat (split; [assumption|]).
  cbv zeta. rewrite Hex. clear Hex. cbv zeta.
  rewrite try_catch_cases. cbv zeta.
  replace (systemMessage (retrieved_context st text) :: messages target)
    with (expected_prompt st text)
    by (unfold expected_prompt; rewrite Hm; reflexivity).
  replace (Nat.eqb (length (messages target)) 1) with (first_exchange st)
    by (rewrite Hm, first_exchange_eqb; reflexivity).
  fold (title_result env text). fold (main_result env st text).
  repeat match goal with
         | |- context [if ?b then _ else _] => destruct b eqn:?
         end; reflexivity.
Qed.

Lemma speak_no_request (env : Env) (st : AppState) (text : string)
    (site : CallSite) (m : string) (p : list Message) :
  ~ In (CompletionsCreate site m p) (speak env st text).
Proof.
  unfold speak. destruct (isMuted st || negb (speechSynthesis env)); simpl;
    intuition discriminate.
Qed.

Lemma retrieval_no_request (st : AppState) (text : string)
    (site : CallSite) (m : string) (p : list Message) :
  ~ In (CompletionsCreate site m p) (retrieval_events st text).
Proof.
  unfold retrieval_events. destruct (ragRetriever st); simpl;
    intuition discriminate.
Qed.

(** Membership of a request in the traces that [try_catch_cases] lists. *)
Ltac request_in H :=
  repeat (apply in_app_or in H as [H|H] || simpl in H
          || destruct H as [H|H]);
  try solve [ discriminate H | contradiction
            | exfalso; eapply speak_no_request; eassumption
            | exfalso; eapply retrieval_no_request; eassumption ].



(** Opens the outcome of a send that issued a request: the closed form
    replaces the call, the three tests are split. *)
Ltac open_outcome env st text Hin :=
  let H := fresh "H" in
  destruct (executeSend_outcome env st text)
    as [[_ H]|(Hacc & Hret & Hres & target & st2 & Hm & Ht & Ha & Hf & Hex)];
  [exfalso; exact (H _ _ _ Hin)|];
  cbv zeta in Hex; rewrite Hex in *; clear Hex;
  destruct (first_exchange st) eqn:Efirst;
  destruct (api_fails (title_result env text)) eqn:Etitle;
  destruct (api_fails (main_result env st text)) eqn:Emain;
  destruct (truthy_opt (first_content (main_result env st text))) eqn:Ereply;
  cbn [andb] in *; state_simpl; unfold activeChat; state_simpl.

(** C3. When the main completion request of a send fails (the call is
    rejected, or its response has no first choice), the target session, which
    is the active one after the send, holds its earlier messages followed by
    the user message and one assistant message with the fallback text; the
    error is logged and the fallback text is handed to [speak], which utters
    it unless muted or without speech synthesis; the send returns with the
    in-flight flag cleared. *)
Theorem executeSend_main_failure (env : Env) (st : AppState) (text : string)
    (p : list Message) :
  In (CompletionsCreate MainCall (model st) p)
     (trace (executeSend env st text)) ->
  api_fails (completions_create env (model st) p) = true ->
  (exists c,
      activeChat (final (executeSend env st text)) = Some c
      /\ messages c
         = target_history st
           ++ [ {| role := user; content := text |};
                {| role := assistant; content := fallbackText |} ])
  /\ isLoading (final (executeSend env st text)) = false
  /\ uncaught (executeSend env st text) = false
  /\ (exists before,
        trace (executeSend env st text)
        = before ++ ConsoleError "Error calling OpenAI API:"
                    :: speak env st fallbackText)
  /\ (isMuted st = false -> speechSynthesis env = true ->
      In (SpeechSpeak fallbackText) (trace (executeSend env st text))).
Proof.
  intros Hin Hfail.
  assert (forall tr, isMuted st = false -> speechSynthesis env = true ->
            In (SpeechSpeak fallbackText)
               (tr ++ ConsoleError "Error calling OpenAI API:"
                      :: speak env st fallbackText)) as Hspeak.
  { intros tr Hq Hs. apply in_or_app. right. right.
    unfold speak. rewrite Hq, Hs. simpl. right. left. reflexivity. }
  open_outcome env st text Hin; request_in Hin.
  all: try (injection Hin as <-; unfold main_result in Emain; congruence).
  all: rewrite Ha, find_appendMessage, ?find_renameChat, Hf; simpl.
  all: split; [eexists; split; [reflexivity|]; simpl;
               rewrite Hm, <- app_assoc; reflexivity|].
  all: split; [reflexivity|]; split; [reflexivity|].
  all: match goal with
       | |- (exists before, ?pre ++ ?a :: ?b :: ?c :: ?rest = _) /\ _ =>
           assert (exists before, pre ++ a :: b :: c :: rest = before ++ c :: rest)
             as Hbefore
             by (exists (pre ++ [a; b]); rewrite <- app_assoc; reflexivity)
       | |- (exists before, ?pre ++ ?b :: ?c :: ?rest = _) /\ _ =>
           assert (exists before, pre ++ b :: c :: rest = before ++ c :: rest)
             as Hbefore
             by (exists (pre ++ [b]); rewrite <- app_assoc; reflexivity)
       end.
  all: split; [exact Hbefore|].
  all: destruct Hbefore as [before ->]; apply Hspeak.
Qed.

Lemma retrieval_no_speech (st : AppState) (text : string) (tr : list Event) :
  List.filter is_speech (retrieval_events st text ++ tr)
  = List.filter is_speech tr.
Proof.
  unfold retrieval_events. destruct (ragRetriever st); reflexivity.
Qed.

Lemma retrieval_no_error (st : AppState) (text label : string) :
  ~ In (ConsoleError label) (retrieval_events st text).
Proof.
  unfold retrieval_events. destruct (ragRetriever st); simpl;
    intuition discriminate.
Qed.

(** C10. When the main completion request of a send is answered with a first
    choice whose content is null or empty, the target session holds its
    earlier messages followed by the user message and nothing more, no speech
    event is issued, the [catch] block does not run, and the send returns
    with the in-flight flag cleared. *)
Theorem executeSend_empty_reply (env : Env) (st : AppState) (text : string)
    (p : list Message) (c0 : option string) (rest : list (option string)) :
  In (CompletionsCreate MainCall (model st) p)
     (trace (executeSend env st text)) ->
  completions_create env (model st) p = ApiResponse (c0 :: rest) ->
  c0 = None \/ c0 = Some "" ->
  (exists c,
      activeChat (final (executeSend env st text)) = Some c
      /\ messages c
         = target_history st ++ [ {| role := user; content := text |} ])
  /\ List.filter is_speech (trace (executeSend env st text)) = []
  /\ (forall label,
        ~ In (ConsoleError label) (trace (executeSend env st text)))
  /\ isLoading (final (executeSend env st text)) = false
  /\ uncaught (executeSend env st text) = false.
Proof.
  intros Hin Hreply Hc0.
  assert (truthy_opt c0 = false) as Hfalsy by (destruct Hc0; subst; reflexivity).
  open_outcome env st text Hin; request_in Hin.
  all: injection Hin as <-; unfold main_result in *; rewrite Hreply in *;
    simpl in *; try congruence.
  all: rewrite Ha, ?find_renameChat, Hf; simpl.
  all: split; [eexists; split; [reflexivity|]; simpl; exact Hm|].
  all: split; [rewrite retrieval_no_speech; reflexivity|].
  all: split; [|split; reflexivity].
  all: intros label Hl; apply in_app_or in Hl as [Hl|Hl];
    [exact (retrieval_no_error _ _ _ Hl)|simpl in Hl; intuition discriminate].
Qed.

(** C6. Every main completion request of a send carries the selected model
    and a prompt made of one system message followed by the history of the
    target session and the user message just appended.  The chunks the
    retrieval index returned for the text, joined in their order by a blank
    line, three dashes and a blank line, are the context: when it is not
    empty the system message is the instruction to answer from the context,
    followed by the context; when it is empty, or there is no index, the
    system message is the persona instruction.  A send that passes its
    preconditions, gets its context, finds its target and does not fail at
    the title request issues a main request. *)
Theorem executeSend_prompt (env : Env) (st : AppState) (text : string) :
  (forall m p,
      In (CompletionsCreate MainCall m p) (trace (executeSend env st text)) ->
      m = model st
      /\ exists sys chunks,
           p = sys :: target_history st
                      ++ [ {| role := user; content := text |} ]
           /\ role sys = system
           /\ match ragRetriever st with
              | Some retriever => retriever text = Some chunks
              | None => chunks = []
              end
           /\ let context :=
                String.concat
                  (String "010" (String "010"
                     ("---" +:+ String "010" (String "010" ""))))
                  (map pageContent chunks) in
              (context = "" ->
               content sys
               = "You are a helpful digital consciousness named Olly that has been created by Zachary Kulik as a demo for the company Olivia.")
              /\ (context <> "" ->
                  content sys
                  = "Based on the following context, answer the user's question."
                    +:+ String "010" (String "010"
                          ("Context:" +:+ String "010" context))))
  /\ (accepted st text -> retrieval_answers st text -> target_resolves st ->
      (first_exchange st = true -> api_fails (title_result env text) = false) ->
      exists p,
        In (CompletionsCreate MainCall (model st) p)
           (trace (executeSend env st text))).
Proof.
  split.
  - intros m p Hin.
    assert (retrieval_answers st text ->
            exists chunks,
              match ragRetriever st with
              | Some retriever => retriever text = Some chunks
              | None => chunks = []
              end
              /\ retrieved_context st text
                 = String.concat
                     (String "010" (String "010"
                        ("---" +:+ String "010" (String "010" ""))))
                     (map pageContent chunks)) as Hctx.
    { unfold retrieval_answers, retrieved_context. intros Hans.
      destruct (ragRetriever st) as [retriever|].
      - specialize (Hans retriever eq_refl).
        destruct (retriever text) as [docs|]; [|congruence].
        exists docs. split; reflexivity.
      - exists []. split; reflexivity. }
    open_outcome env st text Hin; request_in Hin.
    all: injection Hin as <- <-; split; [reflexivity|].
    all: destruct (Hctx Hret) as (chunks & Hchunks & Hjoin).
    all: exists (systemMessage (retrieved_context st text)), chunks.
    all: split; [reflexivity|].
    all: cbv zeta; rewrite <- Hjoin; unfold systemMessage.
    all: destruct (truthy (retrieved_context st text)) eqn:E;
      [apply truthy_true in E|apply truthy_false in E].
    all: split; [reflexivity|]; split; [exact Hchunks|].
    all: split; intros Hc; try contradiction; try reflexivity.
    all: congruence.
  - intros Hacc' Hret' Hres' Htitle. exists (expected_prompt st text).
    destruct (executeSend_outcome env st text)
      as [[H _]|(_ & _ & _ & target & st2 & _ & _ & _ & _ & Hex)];
      [exfalso; exact (H (conj Hacc' (conj Hret' Hres')))|].
    cbv zeta in Hex. rewrite Hex. clear Hex.
    destruct (first_exchange st); [rewrite (Htitle eq_refl)|];
      cbn [andb];
      destruct (api_fails (main_result env st text));
      try destruct (truthy_opt (first_content (main_result env st text)));
      cbn [trace resolved]; apply in_or_app; right; simpl; tauto.
Qed.

(** C1 (amended). On the first exchange of a session a send that passes its
    preconditions issues a title request, to the fixed model and separate
    from the main request.  When it succeeds, the main request comes right
    after it in the trace, and the session is renamed to the characters of
    the returned text that are neither a double nor a single quote, in
    their order, or to [Chat] when none is left or the content is null.
    When it fails, the shared [catch] block runs: no main request is issued,
    the error is logged and the fallback text is handed to [speak] (uttered
    unless muted or without speech synthesis), the title stays, the fallback
    text is appended after the user message and the in-flight flag is
    cleared. *)
Theorem executeSend_title (env : Env) (st : AppState) (text : string) :
  let titleEv :=
    CompletionsCreate TitleCall "gpt-4o"
      [ {| role := user;
           content :=
             "Generate a short, concise title (3-5 words) for the following user query: "
             +:+ String "034" (text +:+ String "034" "") |} ] in
  let fallback := "Sorry, something went wrong." in
  (accepted st text -> retrieval_answers st text -> target_resolves st ->
   first_exchange st = true ->
   In titleEv (trace (executeSend env st text)))
  /\ (forall m p,
        In (CompletionsCreate TitleCall m p)
           (trace (executeSend env st text)) ->
        CompletionsCreate TitleCall m p = titleEv
        /\ first_exchange st = true
        /\ (api_fails (title_result env text) = false ->
            (exists before rest p',
                trace (executeSend env st text)
                = before ++ titleEv
                         :: CompletionsCreate MainCall (model st) p' :: rest)
            /\ exists c,
                 activeChat (final (executeSend env st text)) = Some c
                 /\ title c
                    = match first_content (title_result env text) with
                      | Some s =>
                          match List.filter
                                  (fun a => negb (Ascii.eqb a "034"
                                                  || Ascii.eqb a "039"))
                                  (list_ascii_of_string s) with
                          | [] => "Chat"
                          | kept => string_of_list_ascii kept
                          end
                      | None => "Chat"
                      end)
        /\ (api_fails (title_result env text) = true ->
            (forall m' p',
                ~ In (CompletionsCreate MainCall m' p')
                     (trace (executeSend env st text)))
            /\ (exists before,
                   trace (executeSend env st text)
                   = before ++ titleEv
                            :: ConsoleError "Error calling OpenAI API:"
                            :: speak env st fallback)
            /\ (isMuted st = false -> speechSynthesis env = true ->
                exists before,
                  trace (executeSend env st text)
                  = before ++ [ titleEv;
                                ConsoleError "Error calling OpenAI API:";
                                SpeechCancel; SpeechSpeak fallback ])
            /\ (exists c,
                   activeChat (final (executeSend env st text)) = Some c
                   /\ title c = target_title st
                   /\ messages c
                      = [ {| role := user; content := text |};
                          {| role := assistant; content := fallback |} ])
            /\ isLoading (final (executeSend env st text)) = false
            /\ uncaught (executeSend env st text) = false)).
Proof.
  cbv zeta. split.
  - intros Hacc' Hret' Hres' Hfirst.
    destruct (executeSend_outcome env st text)
      as [[H _]|(_ & _ & _ & target & st2 & _ & _ & _ & _ & Hex)];
      [exfalso; exact (H (conj Hacc' (conj Hret' Hres')))|].
    cbv zeta in Hex. rewrite Hex, Hfirst. clear Hex.
    destruct (api_fails (title_result env text)); cbn [andb];
      try destruct (api_fails (main_result env st text));
      try destruct (truthy_opt (first_content (main_result env st text)));
      cbn [trace resolved]; apply in_or_app; right; simpl; tauto.
  - intros m p Hin.
    open_outcome env st text Hin; request_in Hin.
    all: injection Hin as <- <-.
    all: split; [reflexivity|]; split; [reflexivity|].
    all: split; intros Hcase; try discriminate Hcase.
    all: rewrite Ha, ?find_appendMessage, ?find_renameChat, Hf; simpl.
    all: try (split;
              [eexists (retrieval_events st text), _, _; reflexivity
              |eexists; split; [reflexivity|apply newTitleOf_spec]]).
    all: split; [intros m' p' Hin'; request_in Hin'|].
    all: split; [exists (retrieval_events st text); reflexivity|].
    all: split;
      [intros Hq Hs; exists (retrieval_events st text);
       unfold speak; rewrite Hq, Hs; reflexivity|].
    all: split; [|split; reflexivity].
    all: eexists; split; [reflexivity|]; split; [exact Ht|]; simpl.
    all: rewrite Hm; unfold first_exchange in Efirst;
      destruct (target_history st); [reflexivity|discriminate].
Qed.

Lemma executeSend_main_failure_witness :
  (exists c,
      activeChat (final (executeSend env_down state1 "hello")) = Some c
      /\ messages c
         = [ msg user "hi"; msg assistant "hello"; msg user "hello";
             msg assistant "Sorry, something went wrong." ])
  /\ isLoading (final (executeSend env_down state1 "hello")) = false
  /\ In (SpeechSpeak "Sorry, something went wrong.")
        (trace (executeSend env_down state1 "hello")).
Proof.
  destruct (executeSend_main_failure env_down state1 "hello"
              (expected_prompt state1 "hello"))
    as (H1 & H2 & _ & _ & H5).
  - vm_compute. left. reflexivity.
  - reflexivity.
  - split; [exact H1|]. split; [exact H2|]. apply H5; reflexivity.
Defined.

Lemma executeSend_empty_reply_witness :
  (exists c,
      activeChat (final (executeSend env_empty state1 "hello")) = Some c
      /\ messages c
         = [ msg user "hi"; msg assistant "hello"; msg user "hello" ])
  /\ List.filter is_speech (trace (executeSend env_empty state1 "hello")) = []
  /\ isLoading (final (executeSend env_empty state1 "hello")) = false.
Proof.
  destruct (executeSend_empty_reply env_empty state1 "hello"
              (expected_prompt state1 "hello") (Some "") [])
    as (H1 & H2 & _ & H4 & _).
  - vm_compute. left. reflexivity.
  - reflexivity.
  - right. reflexivity.
  - split; [exact H1|]. split; [exact H2|exact H4].
Defined.

Lemma executeSend_prompt_witness :
  (exists p,
      In (CompletionsCreate MainCall "gpt-4o-mini" p)
         (trace (executeSend env0 state1 "what now"))
      /\ p = [ msg system
                 "You are a helpful digital consciousness named Olly that has been created by Zachary Kulik as a demo for the company Olivia.";
               msg user "hi"; msg assistant "hello"; msg user "what now" ])
  /\ (exists p,
        In (CompletionsCreate MainCall "gpt-4o-mini" p)
           (trace (executeSend env0 state_rag "where"))
        /\ p = [ msg system
                   ("Based on the following context, answer the user's question."
                    +:+ String "010" (String "010"
                          ("Context:" +:+ String "010"
                             ("Paris is in France."
                              +:+ String "010" (String "010"
                                    ("---" +:+ String "010" (String "010"
                                       "Lyon is in France."))))))) ;
                 msg user "hi"; msg assistant "hello"; msg user "where" ]).
Proof.
  split.
  - destruct (proj2 (executeSend_prompt env0 state1 "what now"))
      as [p Hin].
    + repeat split. discriminate.
    + intros retriever H. discriminate H.
    + intros _. discriminate.
    + intros H. discriminate H.
    + exists p. split; [exact Hin|].
      destruct (proj1 (executeSend_prompt env0 state1 "what now") _ _ Hin)
        as (_ & [r c] & chunks & -> & Hrole & Hchunks & Hcontent).
      simpl in Hrole, Hchunks. subst r chunks.
      pose proof (proj1 Hcontent eq_refl) as Hc. simpl in Hc. subst c.
      reflexivity.
  - destruct (proj2 (executeSend_prompt env0 state_rag "where"))
      as [p Hin].
    + repeat split. discriminate.
    + intros retriever [= <-]. discriminate.
    + intros _. discriminate.
    + intros H. discriminate H.
    + exists p. split; [exact Hin|].
      destruct (proj1 (executeSend_prompt env0 state_rag "where") _ _ Hin)
        as (_ & [r c] & chunks & -> & Hrole & Hchunks & Hcontent).
      simpl in Hrole, Hchunks. injection Hchunks as <-. subst r.
      assert (c = content
                    (msg system
                       ("Based on the following context, answer the user's question."
                        +:+ String "010" (String "010"
                              ("Context:" +:+ String "010"
                                 ("Paris is in France."
                                  +:+ String "010" (String "010"
                                        ("---" +:+ String "010" (String "010"
                                           "Lyon is in France."))))))))) as ->
        by (apply (proj2 Hcontent); discriminate).
      reflexivity.
Defined.

Lemma executeSend_title_witness :
  In (CompletionsCreate TitleCall "gpt-4o"
        [ msg user
            ("Generate a short, concise title (3-5 words) for the following user query: "
             +:+ String "034" ("hello" +:+ String "034" "")) ])
     (trace (executeSend env_quoted state0 "hello"))
  /\ (exists c,
        activeChat (final (executeSend env_quoted state0 "hello")) = Some c
        /\ title c = "Todays weather")
  /\ (exists before,
        trace (executeSend env_title_down state0 "hello")
        = before
          ++ [ CompletionsCreate TitleCall "gpt-4o"
                 [ msg user
                     ("Generate a short, concise title (3-5 words) for the following user query: "
                      +:+ String "034" ("hello" +:+ String "034" "")) ];
               ConsoleError "Error calling OpenAI API:";
               SpeechCancel; SpeechSpeak "Sorry, something went wrong." ])
  /\ forall m p,
       ~ In (CompletionsCreate MainCall m p)
            (trace (executeSend env_title_down state0 "hello")).
Proof.
  assert (In (CompletionsCreate TitleCall "gpt-4o"
                [ msg user
                    ("Generate a short, concise title (3-5 words) for the following user query: "
                     +:+ String "034" ("hello" +:+ String "034" "")) ])
             (trace (executeSend env_quoted state0 "hello"))) as Hin.
  { apply (proj1 (executeSend_title env_quoted state0 "hello")).
    - repeat split. discriminate.
    - intros retriever H. discriminate H.
    - intros _. discriminate.
    - reflexivity. }
  split; [exact Hin|]. split.
  - destruct (proj2 (executeSend_title env_quoted state0 "hello") _ _ Hin)
      as (_ & _ & Hok & _).
    destruct (Hok eq_refl) as (_ & c & Hc & Ht).
    exists c. split; [exact Hc|exact Ht].
  - assert (In (CompletionsCreate TitleCall "gpt-4o"
                  [ msg user
                      ("Generate a short, concise title (3-5 words) for the following user query: "
                       +:+ String "034" ("hello" +:+ String "034" "")) ])
               (trace (executeSend env_title_down state0 "hello"))) as Hin'
      by (vm_compute; left; reflexivity).
    destruct (proj2 (executeSend_title env_title_down state0 "hello")
                _ _ Hin')
      as (_ & _ & _ & Hfail).
    destruct (Hfail eq_refl) as (Hnone & _ & Hspoken & _).
    split; [exact (Hspoken eq_refl eq_refl)|exact Hnone].
Defined.

(** C1, as stated, fails: the main request would succeed, and yet after the
    failed title request it is never issued; the fallback text is appended
    instead. *)
Lemma title_failure_aborts_reply :
  first_exchange state0 = true
  /\ api_fails (main_result env_title_down state0 "hello") = false
  /\ trace (executeSend env_title_down state0 "hello")
     = [ CompletionsCreate TitleCall "gpt-4o" (title_request "hello");
         ConsoleError "Error calling OpenAI API:";
         SpeechCancel; SpeechSpeak "Sorry, something went wrong." ]
  /\ activeChat (final (executeSend env_title_down state0 "hello"))
     = Some {| id := "1700000000002"; title := "New Chat";
               messages := [ msg user "hello";
                             msg assistant "Sorry, something went wrong." ] |}.
Proof. repeat split. Qed.

(** The chunks are joined in the order the retriever returned them. *)
Lemma joinContext_order (d d' : Document) (ds : list Document) :
  joinContext [] = ""
  /\ joinContext [d] = pageContent d
  /\ joinContext (d :: d' :: ds)
     = pageContent d +:+ contextSeparator +:+ joinContext (d' :: ds).
Proof. repeat split. Qed.

(** A first send that succeeds: two messages appended, one rename. *)
Example executeSend_first_exchange :
  chats (final (executeSend env0 state0 "hello"))
  = [ {| id := "1700000000002"; title := "Sunny.";
         messages := [ msg user "hello"; msg assistant "Sunny." ] |};
      chat1 ]
  /\ trace (executeSend env0 state0 "hello")
     = [ CompletionsCreate TitleCall "gpt-4o" (title_request "hello");
         CompletionsCreate MainCall "gpt-4o-mini"
           [ systemPrompt; msg user "hello" ];
         SpeechCancel; SpeechSpeak "Sunny." ].
Proof. split; reflexivity. Qed.

(** A send without an active session creates the session it writes to. *)
Example executeSend_creates_session :
  chats (final (executeSend env_empty (initialState {[ key_apiKey := "sk" ]})
                  "hello"))
  = [ {| id := "1700000000009"; title := "Chat";
         messages := [ msg user "hello" ] |} ]
  /\ activeChatId
       (final (executeSend env_empty (initialState {[ key_apiKey := "sk" ]})
                 "hello"))
     = Some "1700000000009".
Proof. split; reflexivity. Qed.

Example sendCommandRegex_examples :
  sendCommandRegex_exec "what is the weather send" = Some "what is the weather"
  /\ sendCommandRegex_exec "stop SENT" = Some "stop"
  /\ sendCommandRegex_exec "send" = None
  /\ sendCommandRegex_exec "please resend" = None
  /\ sendCommandRegex_exec "send it" = None.
Proof. repeat split. Qed.

Example newTitleOf_inner_quote :
  newTitleOf (Some (String dquote "Don't stop" +:+ String dquote ""))
  = "Dont stop".
Proof. reflexivity. Qed.

(** ** Voice bridge *)

Lemma try_catch_same_session (env : Env) (st1 st2 : AppState) (text : string)
    (target : Chat) (prompt : list Message) (cs : list Chat) :
  model st1 = model st2 -> isMuted st1 = isMuted st2 ->
  catchBlock env st1 target (tryBlock env st1 text target prompt cs)
  = catchBlock env st2 target (tryBlock env st2 text target prompt cs).
Proof.
  intros Hm Hq. unfold catchBlock, tryBlock, speak. rewrite Hm, Hq. reflexivity.
Qed.

Lemma executeSend_same_session (env : Env) (st1 st2 : AppState) (text : string) :
  same_session st1 st2 ->
  trace (executeSend env st1 text) = trace (executeSend env st2 text)
  /\ uncaught (executeSend env st1 text) = uncaught (executeSend env st2 text)
  /\ same_session (final (executeSend env st1 text))
       (final (executeSend env st2 text)).
Proof.
  intros (Hk & Hm & Hc & Ha & Hl & Hq & Hr & Hd).
  unfold executeSend, resolveTarget, same_session. state_simpl.
  rewrite ?Hk, ?Hc, ?Ha, ?Hl, ?Hr.
  repeat match goal with
         | |- context [tryBlock env st1 ?t ?c ?m ?cs] =>
             rewrite (try_catch_same_session env st1 st2 t c m cs Hm Hq)
         | _ => break_match
         end;
    state_simpl; repeat split; congruence.
Qed.

Lemma executeSend_frame (env : Env) (st : AppState) (text : string) :
  let st' := final (executeSend env st text) in
  apiKey st' = apiKey st /\ model st' = model st /\ isMuted st' = isMuted st
  /\ voiceCommandToSend st' = voiceCommandToSend st
  /\ ragRetriever st' = ragRetriever st
  /\ loadedDocuments st' = loadedDocuments st
  /\ utteranceStartIndexRef st' = utteranceStartIndexRef st.
Proof.
  unfold executeSend, resolveTarget. cbv zeta.
  break_matches; state_simpl; repeat split; assumption.
Qed.

Lemma nth_error_last {A : Type} (l : list A) (x : A) :
  nth_error (l ++ [x]) (length (l ++ [x]) - 1) = Some x.
Proof.
  rewrite length_app. simpl.
  replace (length l + 1 - 1) with (length l) by lia.
  rewrite nth_error_app2 by lia. rewrite Nat.sub_diag. reflexivity.
Qed.

(** C9. A recognition event whose last result is final and whose utterance
    ends with white space followed by [send] or [sent] in any letter case:
    the command word and the white space before it are removed and the rest
    is trimmed, that is, white space is taken off both of its ends and what
    is left neither starts nor ends with white space; when that is not empty
    it becomes the pending voice command and the utterance boundary moves to
    the end of the results, so that the utterance of a later event holds the
    later results only.  The effect then passes the command to
    [executeSend]: the trace and the session state are those of typing the
    same text and pressing Enter. *)
Theorem voice_send_command (env : Env) (earlier : list SpeechResult)
    (lastResult : SpeechResult) (st : AppState)
    (before : string) (w : ascii) (word : string) :
  let results := earlier ++ [lastResult] in
  isFinal lastResult = true ->
  currentUtteranceOf st results = before +:+ String w word ->
  isWhiteSpace w = true ->
  toLowerCase word = "send" \/ toLowerCase word = "sent" ->
  trim before <> "" ->
  let voice := voiceSubmit env results st in
  let typed := handleKeyPress env "Enter" (setInput (trim before) st) in
  (exists lead trail,
      before = lead +:+ trim before +:+ trail
      /\ blank lead = true /\ blank trail = true)
  /\ (forall c r, trim before = String c r -> isWhiteSpace c = false)
  /\ (forall r c, trim before = r +:+ String c "" -> isWhiteSpace c = false)
  /\ onresult results st
     = resolved (setUtteranceStartIndex (length results)
                   (setVoiceCommandToSend (Some (trim before))
                      (setInput (before +:+ String w word) st))) []
  /\ trace voice = trace typed
  /\ uncaught voice = uncaught typed
  /\ same_session (final voice) (final typed)
  /\ voiceCommandToSend (final voice) = None
  /\ utteranceStartIndexRef (final voice) = length results
  /\ (forall more,
        currentUtteranceOf (final voice) (results ++ more)
        = fold_left (fun acc r => acc +:+ transcript r) more "").
Proof.
  intros results Hfinal Hutt Hw Hword Hne voice typed.
  destruct (trim_spec before) as (Hparts & Hfirst & Hlast).
  split; [exact Hparts|]. split; [exact Hfirst|]. split; [exact Hlast|].
  assert (onresult results st
          = resolved (setUtteranceStartIndex (length results)
                        (setVoiceCommandToSend (Some (trim before))
                           (setInput (before +:+ String w word) st))) [])
    as Hon.
  { unfold onresult. subst results. rewrite nth_error_last, Hfinal.
    unfold sendCommandRegex_test, sendCommandRegex_strip. rewrite Hutt.
    rewrite (sendCommandRegex_exec_suffix before w word Hw
               (toLowerCase_send_word word Hword)).
    apply truthy_true in Hne. rewrite Hne. reflexivity. }
  split; [exact Hon|].
  assert (Hne' : truthy (trim before) = true) by (apply truthy_true, Hne).
  subst voice typed. unfold voiceSubmit, voiceCommandEffect, handleKeyPress, handleSend.
  rewrite Hon. cbn [uncaught final trace resolved voiceCommandToSend
                      setUtteranceStartIndex setVoiceCommandToSend input setInput].
  rewrite Hne'. cbn [uncaught final trace app String.eqb Ascii.eqb Bool.eqb].
  set (stv := setUtteranceStartIndex _ _).
  destruct (executeSend_same_session env stv (setInput (trim before) st)
              (trim before)) as (Ht & Hu & Hs).
  { repeat split. }
  destruct (executeSend_frame env stv (trim before)) as (_ & _ & _ & _ & _ & _ & Hidx).
  split; [exact Ht|]. split; [exact Hu|]. split; [exact Hs|].
  split; [reflexivity|].
  assert (utteranceStartIndexRef
            (setVoiceCommandToSend None (final (executeSend env stv (trim before))))
          = length results) as Hi.
  { cbn [utteranceStartIndexRef setVoiceCommandToSend]. rewrite Hidx. reflexivity. }
  split; [exact Hi|].
  intros more. unfold currentUtteranceOf. rewrite Hi.
  rewrite drop_app_length. reflexivity.
Qed.

Lemma voice_send_command_witness :
  (onresult [ {| transcript := "what is the "; isFinal := true |};
              {| transcript := "weather send"; isFinal := true |} ] state0
   = resolved (setUtteranceStartIndex 2
                 (setVoiceCommandToSend (Some "what is the weather")
                    (setInput "what is the weather send" state0))) []
   /\ trace (voiceSubmit env0
               [ {| transcript := "what is the "; isFinal := true |};
                 {| transcript := "weather send"; isFinal := true |} ] state0)
      = trace (handleKeyPress env0 "Enter"
                 (setInput "what is the weather" state0)))
  /\ (onresult [ {| transcript := "  what is "; isFinal := true |};
                 {| transcript := "the weather   Sent"; isFinal := true |} ]
        state0
      = resolved (setUtteranceStartIndex 2
                    (setVoiceCommandToSend (Some "what is the weather")
                       (setInput "  what is the weather   Sent" state0))) []
      /\ trace (voiceSubmit env0
                  [ {| transcript := "  what is "; isFinal := true |};
                    {| transcript := "the weather   Sent"; isFinal := true |} ]
                  state0)
         = [ CompletionsCreate TitleCall "gpt-4o"
               [ msg user
                   ("Generate a short, concise title (3-5 words) for the following user query: "
                    +:+ String "034" ("what is the weather"
                                      +:+ String "034" "")) ];
             CompletionsCreate MainCall "gpt-4o-mini"
               [ msg system
                   "You are a helpful digital consciousness named Olly that has been created by Zachary Kulik as a demo for the company Olivia.";
                 msg user "what is the weather" ];
             SpeechCancel; SpeechSpeak "Sunny." ]).
Proof.
  split.
  - pose proof (voice_send_command env0
                  [ {| transcript := "what is the "; isFinal := true |} ]
                  {| transcript := "weather send"; isFinal := true |} state0
                  "what is the weather" " " "send"
                  eq_refl eq_refl eq_refl (or_introl eq_refl)) as H.
    cbv zeta in H. destruct H as (_ & _ & _ & H1 & H2 & _).
    + vm_compute. discriminate.
    + split; [exact H1|exact H2].
  - pose proof (voice_send_command env0
                  [ {| transcript := "  what is "; isFinal := true |} ]
                  {| transcript := "the weather   Sent"; isFinal := true |}
                  state0 "  what is the weather  " " " "Sent"
                  eq_refl eq_refl eq_refl (or_intror eq_refl)) as H.
    cbv zeta in H. destruct H as (_ & _ & _ & H1 & H2 & _).
    + vm_compute. discriminate.
    + split; [exact H1|]. eapply eq_trans; [exact H2|reflexivity].
Defined.

(** * Further properties *)

(** ** Sessions and persistence *)

Section StartupProperties.

Variable JSON_stringify : list Chat -> string.
Variable JSON_parse : string -> option (list Chat).

(** X1. Whatever the store holds, a mount effect that returns leaves a state
    that satisfies the session invariant: the list is not empty and the
    active id is the id of one of its sessions. *)
Theorem initChats_establishes_invariant (now : string)
    (localStorage : gmap string string) (st0 st' : AppState) :
  initChats JSON_parse now localStorage st0 = Some st' ->
  session_invariant st' /\ chats st' <> [].
Proof.
  unfold initChats. intros H.
  assert (forall st, Some (handleNewChat now st0) = Some st ->
                     session_invariant st /\ chats st <> []) as Hnew.
  { intros st [= <-]. split; [apply handleNewChat_invariant|discriminate]. }
  destruct (localStorage !! key_chats) as [text|]; [|exact (Hnew _ H)].
  destruct (truthy text); [|exact (Hnew _ H)].
  destruct (JSON_parse text) as [[|c0 rest]|]; [exact (Hnew _ H)| |discriminate].
  injection H as <-. split; [|discriminate]. split.
  - state_simpl. split; [|intros Hnil; discriminate Hnil].
    destruct (has_id (localStorage !! key_active) c0
              || existsb (has_id (localStorage !! key_active)) rest)
      eqn:E; [|intros Hs; discriminate Hs].
    change (existsb (has_id (localStorage !! key_active)) (c0 :: rest) = true)
      in E.
    intros Hn. rewrite Hn in E.
    apply existsb_exists in E as (c & _ & Hc). discriminate Hc.
  - intros a. state_simpl.
    destruct (has_id (localStorage !! key_active) c0
              || existsb (has_id (localStorage !! key_active)) rest) eqn:E.
    + change (existsb (has_id (localStorage !! key_active)) (c0 :: rest)
              = true) in E.
      intros Ha. rewrite Ha in E. apply existsb_exists in E as (c & Hc & Hid).
      apply has_id_true in Hid. injection Hid as ->. apply in_map. exact Hc.
    + intros [= <-]. left. reflexivity.
Qed.


End StartupProperties.

Lemma initChats_establishes_invariant_witness :
  session_invariant
    (setActiveChatId (Some (id chat2))
       (setChats [chat2; chat1] (initialState storage_dangling))).
Proof.
  apply (initChats_establishes_invariant sample_parse "1700000000009"
           storage_dangling (initialState storage_dangling)).
  reflexivity.
Defined.


(** X3. The API key survives a restart, and the three storage keys do not
    disturb one another: saving the sessions leaves the stored key alone,
    and saving the key leaves the stored sessions and active id alone. *)
Theorem apiKey_round_trip (JSON_stringify : list Chat -> string)
    (st : AppState) (localStorage : gmap string string) :
  apiKey (initialState (saveApiKey st localStorage)) = apiKey st
  /\ apiKey (initialState
               (saveChats JSON_stringify st (saveApiKey st localStorage)))
     = apiKey st
  /\ saveApiKey st localStorage !! key_chats = localStorage !! key_chats
  /\ saveApiKey st localStorage !! key_active = localStorage !! key_active.
Proof.
  unfold initialState, saveApiKey, saveChats. cbn [apiKey].
  repeat split.
  - rewrite lookup_insert_eq. reflexivity.
  - destruct (activeChatId st) as [a|]; [destruct (truthy a)|];
      rewrite ?(lookup_insert_ne _ key_active) by discriminate;
      rewrite (lookup_insert_ne _ key_chats) by discriminate;
      rewrite lookup_insert_eq; reflexivity.
  - apply lookup_insert_ne. discriminate.
  - apply lookup_insert_ne. discriminate.
Qed.

(** X4. Deleting a session twice is deleting it once. *)
Theorem handleDeleteChat_idempotent (chatId : string) (st : AppState) :
  handleDeleteChat chatId (handleDeleteChat chatId st)
  = handleDeleteChat chatId st.
Proof.
  assert (forall cs,
            List.filter (fun chat => negb (has_id (Some chatId) chat))
              (List.filter (fun chat => negb (has_id (Some chatId) chat)) cs)
            = List.filter (fun chat => negb (has_id (Some chatId) chat)) cs)
    as Hff.
  { induction cs as [|c cs IH]; simpl; [reflexivity|].
    destruct (has_id (Some chatId) c) eqn:E; simpl; [exact IH|].
    rewrite E. simpl. rewrite IH. reflexivity. }
  unfold handleDeleteChat.
  destruct (strict_eq (activeChatId st) chatId) eqn:E; state_simpl;
    rewrite Hff.
  - destruct (List.filter _ (chats st)) as [|c rest] eqn:Ef; simpl.
    + reflexivity.
    + assert (In c (List.filter (fun chat => negb (has_id (Some chatId) chat))
                      (chats st))) as Hin by (rewrite Ef; left; reflexivity).
      apply filter_In in Hin as [_ Hc]. apply negb_true_iff in Hc.
      unfold has_id in Hc. simpl in Hc. rewrite String.eqb_sym in Hc.
      rewrite Hc. reflexivity.
  - rewrite E. reflexivity.
Qed.

(** X5. Creating a session and deleting it again gives back the list as it
    was, but not the selection: the head of the list is active afterwards,
    whichever session was active before. *)
Theorem handleNewChat_then_delete (now : string) (st : AppState) :
  ~ In now (map id (chats st)) ->
  chats (handleDeleteChat now (handleNewChat now st)) = chats st
  /\ activeChatId (handleDeleteChat now (handleNewChat now st))
     = option_map id (head (chats st)).
Proof.
  intros Hfresh.
  assert (List.filter (fun chat => negb (has_id (Some now) chat))
            ({| id := now; title := "New Chat"; messages := [] |} :: chats st)
          = chats st) as Hf.
  { cbn [List.filter]. unfold has_id at 1. cbn [strict_eq id].
    rewrite String.eqb_refl. cbn [negb]. apply filter_absent_id, Hfresh. }
  unfold handleDeleteChat, handleNewChat. state_simpl.
  cbn [strict_eq id]. rewrite String.eqb_refl, Hf. state_simpl.
  split; [reflexivity|]. destruct (chats st); reflexivity.
Qed.

Lemma handleNewChat_then_delete_witness :
  chats (handleDeleteChat "1700000000003"
           (handleNewChat "1700000000003" state1)) = chats state1
  /\ activeChatId (handleDeleteChat "1700000000003"
                     (handleNewChat "1700000000003" state1))
     = Some "1700000000002".
Proof.
  apply (handleNewChat_then_delete "1700000000003" state1).
  simpl. intuition discriminate.
Defined.

(** X6. Selecting a session of the list keeps the session invariant, and
    with distinct ids the selected session is the active one. *)
Theorem handleSelectChat_active (chat : Chat) (st : AppState) :
  In chat (chats st) ->
  session_invariant (handleSelectChat chat st)
  /\ (List.NoDup (map id (chats st)) ->
      activeChat (handleSelectChat chat st) = Some chat).
Proof.
  intros Hin. unfold handleSelectChat. split.
  - split; state_simpl.
    + split; [discriminate|]. intros Hn. rewrite Hn in Hin. destruct Hin.
    + intros a [= <-]. apply in_map. exact Hin.
  - unfold activeChat. state_simpl. revert Hin.
    induction (chats st) as [|c cs IH]; simpl; intros Hin Hnd; [destruct Hin|].
    inversion Hnd as [|? ? Hc Hcs]; subst.
    destruct (has_id (Some (id chat)) c) eqn:E.
    + destruct Hin as [->|Hin]; [reflexivity|].
      apply has_id_true in E. injection E as E.
      exfalso. apply Hc. rewrite <- E. apply in_map. exact Hin.
    + destruct Hin as [->|Hin]; [|exact (IH Hin Hcs)].
      unfold has_id in E. simpl in E. rewrite String.eqb_refl in E. discriminate.
Qed.

Lemma handleSelectChat_active_witness :
  activeChat (handleSelectChat chat1 state0) = Some chat1.
Proof.
  apply (handleSelectChat_active chat1 state0).
  - right. left. reflexivity.
  - simpl. repeat constructor; simpl; intuition discriminate.
Defined.

(** ** Conversation engine *)

Lemma update_ids (x : option string) (g : Chat -> Chat) (cs : list Chat) :
  (forall c, id (g c) = id c) ->
  map id (map (fun c => if has_id x c then g c else c) cs) = map id cs.
Proof.
  intros Hg. induction cs as [|c cs IH]; simpl; [reflexivity|].
  rewrite IH. destruct (has_id x c); [rewrite Hg|]; reflexivity.
Qed.

Lemma update_others (x : option string) (g : Chat -> Chat) (cs : list Chat) :
  (forall c, id (g c) = id c) ->
  other_sessions x (map (fun c => if has_id x c then g c else c) cs)
  = other_sessions x cs.
Proof.
  intros Hg. unfold other_sessions.
  induction cs as [|c cs IH]; simpl; [reflexivity|].
  destruct (has_id x c) eqn:E.
  - unfold has_id in *. rewrite Hg, E. simpl. exact IH.
  - rewrite E. simpl. rewrite IH. reflexivity.
Qed.

Lemma update_titles (x : option string) (g : Chat -> Chat) (cs : list Chat) :
  (forall c, title (g c) = title c) ->
  map title (map (fun c => if has_id x c then g c else c) cs) = map title cs.
Proof.
  intros Hg. induction cs as [|c cs IH]; simpl; [reflexivity|].
  rewrite IH. destruct (has_id x c); [rewrite Hg|]; reflexivity.
Qed.

(** The [try] and [catch] blocks update the target session only, and rename
    it only when it holds one message. *)
Lemma try_catch_sessions (env : Env) (st : AppState) (text : string)
    (target : Chat) (prompt : list Message) (cs : list Chat) :
  let cs' := fst (catchBlock env st target
                    (tryBlock env st text target prompt cs)) in
  map id cs' = map id cs
  /\ other_sessions (Some (id target)) cs'
     = other_sessions (Some (id target)) cs
  /\ (Nat.eqb (length (messages target)) 1 = false ->
      map title cs' = map title cs).
Proof.
  rewrite try_catch_cases. cbv zeta.
  unfold appendMessage, renameChat.
  destruct (Nat.eqb (length (messages target)) 1);
    destruct (api_fails _); cbn [andb fst];
    try destruct (api_fails _);
    try destruct (truthy_opt _); cbn [fst];
    rewrite ?update_ids, ?update_others, ?update_titles by reflexivity;
    repeat split; try reflexivity; intros H; discriminate H.
Qed.

(** What [resolveTarget] does to the list: it updates the active session in
    place, or puts a new session in front and makes it active. *)
Lemma resolveTarget_sessions (env : Env) (st : AppState) (um : Message)
    (target : Chat) (st2 : AppState) :
  resolveTarget env st um = Some (target, st2) ->
  other_sessions (Some (id target)) (chats st2)
  = other_sessions (Some (id target)) (chats st)
  /\ ((map id (chats st2) = map id (chats st)
       /\ map title (chats st2) = map title (chats st)
       /\ activeChatId st = Some (id target)
       /\ truthy_opt (activeChatId st) = true)
      \/ (chats st2 = target :: chats st
          /\ id target = Date_now env
          /\ truthy_opt (activeChatId st) = false)).
Proof.
  unfold resolveTarget.
  assert (forall t s2,
             Some ({| id := Date_now env; title := "New Chat";
                      messages := [um] |},
                   setChats ({| id := Date_now env; title := "New Chat";
                                messages := [um] |} :: chats st)
                     (setActiveChatId (Some (Date_now env)) st))
             = Some (t, s2) ->
             other_sessions (Some (id t)) (chats s2)
             = other_sessions (Some (id t)) (chats st)
             /\ chats s2 = t :: chats st /\ id t = Date_now env) as Hnew.
  { intros t s2 [= <- <-]. state_simpl. cbn [id].
    split; [|split; reflexivity].
    unfold other_sessions. cbn [List.filter]. unfold has_id at 1.
    cbn [strict_eq id]. rewrite String.eqb_refl. reflexivity. }
  destruct (activeChatId st) as [a|] eqn:Ha; cbn [id].
  - destruct (truthy a) eqn:Ht.
    + destruct (find (has_id (Some a)) (chats st)) as [c|] eqn:Hf;
        [|discriminate].
      intros [= <- <-]. state_simpl. cbn [id].
      pose proof (find_some _ _ Hf) as [_ Hid]. apply has_id_true in Hid.
      injection Hid as ->.
      split; [apply update_others; reflexivity|]. left.
      rewrite update_ids, update_titles by reflexivity.
      repeat split; assumption.
    + intros H. destruct (Hnew _ _ H) as (H1 & H2 & H3).
      split; [exact H1|]. right. repeat split; assumption.
  - intros H. destruct (Hnew _ _ H) as (H1 & H2 & H3).
    split; [exact H1|]. right. repeat split; assumption.
Qed.

(** What a send does to the list of sessions, on every path. *)
Lemma executeSend_sessions (env : Env) (st : AppState) (text : string) :
  let st' := final (executeSend env st text) in
  other_sessions (activeChatId st') (chats st')
  = other_sessions (activeChatId st') (chats st)
  /\ ((map id (chats st') = map id (chats st)
       /\ activeChatId st' = activeChatId st
       /\ (first_exchange st = false ->
           map title (chats st') = map title (chats st)))
      \/ (map id (chats st') = Date_now env :: map id (chats st)
          /\ activeChatId st' = Some (Date_now env)
          /\ truthy_opt (activeChatId st) = false)).
Proof.
  assert (forall s, chats s = chats st -> activeChatId s = activeChatId st ->
            other_sessions (activeChatId s) (chats s)
            = other_sessions (activeChatId s) (chats st)
            /\ ((map id (chats s) = map id (chats st)
                 /\ activeChatId s = activeChatId st
                 /\ (first_exchange st = false ->
                     map title (chats s) = map title (chats st)))
                \/ (map id (chats s) = Date_now env :: map id (chats st)
                    /\ activeChatId s = Some (Date_now env)
                    /\ truthy_opt (activeChatId st) = false))) as Hsame.
  { intros s Hc Ha. rewrite Hc, Ha. split; [reflexivity|]. left.
    repeat split. }
  unfold executeSend. cbv zeta.
  destruct ((trim text =? "")%string || isLoading st);
    [apply Hsame; reflexivity|].
  destruct (negb (truthy (apiKey st))); [apply Hsame; reflexivity|].
  destruct (match ragRetriever st with
            | Some retriever =>
                (option_map joinContext (retriever text),
                 [GetRelevantDocuments text])
            | None => (Some "", [])
            end) as [[context|] tr1]; [|apply Hsame; reflexivity].
  destruct (resolveTarget env _ _) as [[target st2]|] eqn:Hres;
    [|apply Hsame; reflexivity].
  destruct (resolveTarget_spec _ _ _ _ _ Hres) as (Hm & _ & Ha2 & _ & _).
  change (target_history _) with (target_history st) in Hm.
  destruct (resolveTarget_sessions _ _ _ _ _ Hres) as (Ho & Hshape).
  state_simpl.
  pose proof (try_catch_sessions env st text target
                (systemMessage context :: messages target) (chats st2))
    as (Hi & Hot & Htt).
  destruct (catchBlock _ _ _ _) as [cs tr2]. cbn [fst] in *. state_simpl.
  rewrite Ha2. split; [rewrite Hot; exact Ho|].
  destruct Hshape as [(H1 & H2 & H3 & H4)|(H1 & H2 & H3)].
  - left. split; [rewrite Hi; exact H1|]. split; [symmetry; exact H3|].
    intros Hfirst. rewrite Htt; [exact H2|].
    rewrite Hm, first_exchange_eqb. exact Hfirst.
  - right. split; [rewrite Hi, H1; simpl; rewrite H2; reflexivity|].
    split; [rewrite H2; reflexivity|exact H3].
Qed.

(** X7. A send never removes or reorders sessions: the ids of the list are
    those from before, with at most the id of a newly created session in
    front; and a state that satisfies the session invariant still does after
    the send, on every path. *)
Theorem executeSend_keeps_sessions (env : Env) (st : AppState)
    (text : string) :
  (map id (chats (final (executeSend env st text))) = map id (chats st)
   \/ map id (chats (final (executeSend env st text)))
      = Date_now env :: map id (chats st))
  /\ (session_invariant st ->
      session_invariant (final (executeSend env st text))).
Proof.
  destruct (executeSend_sessions env st text) as (_ & Hshape).
  cbv zeta in Hshape.
  destruct Hshape as [(Hi & Ha & _)|(Hi & Ha & _)].
  - split; [left; exact Hi|]. intros [Hnull Hin]. split.
    + rewrite Ha, Hnull. split; intros H.
      * rewrite H in Hi. destruct (chats (final _)); [reflexivity|discriminate].
      * rewrite H in Hi. destruct (chats st); [reflexivity|discriminate].
    + intros a. rewrite Ha, Hi. apply Hin.
  - split; [right; exact Hi|]. intros _. split.
    + rewrite Ha. split; [discriminate|]. intros H. rewrite H in Hi.
      discriminate.
    + intros a. rewrite Ha, Hi. intros [= <-]. left. reflexivity.
Qed.

Lemma executeSend_keeps_sessions_witness :
  session_invariant (final (executeSend env_title_down state0 "hello")).
Proof.
  apply (proj2 (executeSend_keeps_sessions env_title_down state0 "hello")).
  exact state0_invariant.
Defined.

(** X8. A send leaves every session but its target as it was, in the same
    order; and it changes no title at all unless it is the first exchange of
    its session. *)
Theorem executeSend_other_sessions (env : Env) (st : AppState)
    (text : string) :
  other_sessions (activeChatId (final (executeSend env st text)))
    (chats (final (executeSend env st text)))
  = other_sessions (activeChatId (final (executeSend env st text)))
      (chats st)
  /\ (first_exchange st = false ->
      map title (chats (final (executeSend env st text)))
      = map title (chats st)).
Proof.
  destruct (executeSend_sessions env st text) as (Ho & Hshape).
  cbv zeta in *. split; [exact Ho|]. intros Hfirst.
  destruct Hshape as [(_ & _ & Ht)|(_ & _ & Hfalsy)]; [exact (Ht Hfirst)|].
  unfold first_exchange, target_history in Hfirst.
  rewrite Hfalsy in Hfirst. discriminate.
Qed.

Lemma executeSend_other_sessions_witness :
  map title (chats (final (executeSend env0 state1 "what now")))
  = ["New Chat"; "Weather"].
Proof.
  apply (proj2 (executeSend_other_sessions env0 state1 "what now")).
  reflexivity.
Defined.

(** X9. When the main completion request of a send is answered with a first
    choice that has text, the target session holds its earlier messages
    followed by the user message and the reply; the reply is the last thing
    handed to [speak]; nothing is logged as an error and the in-flight flag
    is cleared. *)
Theorem executeSend_reply (env : Env) (st : AppState) (text : string)
    (p : list Message) (reply : string) (rest : list (option string)) :
  In (CompletionsCreate MainCall (model st) p)
     (trace (executeSend env st text)) ->
  completions_create env (model st) p = ApiResponse (Some reply :: rest) ->
  reply <> "" ->
  (exists c,
      activeChat (final (executeSend env st text)) = Some c
      /\ messages c
         = target_history st
           ++ [ {| role := user; content := text |};
                {| role := assistant; content := reply |} ])
  /\ ends_with (trace (executeSend env st text)) (speak env st reply)
  /\ (forall label,
        ~ In (ConsoleError label) (trace (executeSend env st text)))
  /\ isLoading (final (executeSend env st text)) = false
  /\ uncaught (executeSend env st text) = false.
Proof.
  intros Hin Hreply Hne. apply truthy_true in Hne.
  open_outcome env st text Hin; request_in Hin.
  all: injection Hin as <-; unfold main_result in *; rewrite Hreply in *;
    simpl in *; try congruence.
  all: rewrite Ha, find_appendMessage, ?find_renameChat, Hf; simpl.
  all: split; [eexists; split; [reflexivity|]; simpl;
               rewrite Hm, <- app_assoc; reflexivity|].
  all: split;
    [match goal with
     | |- ends_with (?pre ++ ?a :: ?b :: ?tl) _ =>
         exists (pre ++ [a; b]); rewrite <- app_assoc; reflexivity
     | |- ends_with (?pre ++ ?b :: ?tl) _ =>
         exists (pre ++ [b]); rewrite <- app_assoc; reflexivity
     end|].
  all: split; [|split; reflexivity].
  all: intros label Hl; apply in_app_or in Hl as [Hl|Hl];
    [exact (retrieval_no_error _ _ _ Hl)|].
  all: unfold speak in Hl;
    destruct (isMuted st || negb (speechSynthesis env)); simpl in Hl;
    intuition discriminate.
Qed.

Lemma executeSend_reply_witness :
  (exists c,
      activeChat (final (executeSend env0 state1 "what now")) = Some c
      /\ messages c
         = [ msg user "hi"; msg assistant "hello"; msg user "what now";
             msg assistant "Sunny." ])
  /\ ends_with (trace (executeSend env0 state1 "what now"))
       [SpeechCancel; SpeechSpeak "Sunny."].
Proof.
  destruct (executeSend_reply env0 state1 "what now"
              (expected_prompt state1 "what now") "Sunny." [])
    as (H1 & H2 & _).
  - vm_compute. left. reflexivity.
  - reflexivity.
  - discriminate.
  - split; [exact H1|exact H2].
Defined.

Lemma find_listed_id (a : string) (cs : list Chat) :
  In a (map id cs) -> find (has_id (Some a)) cs <> None.
Proof.
  intros Hin Hnone. apply in_map_iff in Hin as (c & Hc & Hcin).
  pose proof (find_none _ _ Hnone c Hcin) as H.
  unfold has_id in H. simpl in H. rewrite Hc, String.eqb_refl in H.
  discriminate.
Qed.

Lemma session_invariant_resolves (st : AppState) :
  session_invariant st -> target_resolves st.
Proof.
  intros [_ Hin] Ht. unfold activeChat.
  destruct (activeChatId st) as [a|]; [|discriminate].
  apply find_listed_id, Hin. reflexivity.
Qed.

(** X10. A send leaves an unhandled rejection exactly when it passes its
    preconditions and then either the retrieval query is rejected or the
    active id names no session.  It then stops before the [try] block: no
    completion request is issued, the sessions are as they were, and the
    in-flight flag stays set, so that every later send is a silent no-op.
    From a state that satisfies the session invariant, with a retrieval
    index that answers, this does not happen. *)
Theorem executeSend_unhandled (env : Env) (st : AppState) (text : string) :
  (uncaught (executeSend env st text) = true <->
   accepted st text /\ ~ (retrieval_answers st text /\ target_resolves st))
  /\ (uncaught (executeSend env st text) = true ->
      isLoading (final (executeSend env st text)) = true
      /\ chats (final (executeSend env st text)) = chats st
      /\ activeChatId (final (executeSend env st text)) = activeChatId st
      /\ (forall site m p,
            ~ In (CompletionsCreate site m p)
                 (trace (executeSend env st text)))
      /\ forall env' text',
           executeSend env' (final (executeSend env st text)) text'
           = resolved (final (executeSend env st text)) [])
  /\ (session_invariant st -> retrieval_answers st text ->
      uncaught (executeSend env st text) = false).
Proof.
  assert (uncaught (executeSend env st text) = true ->
          isLoading (final (executeSend env st text)) = true
          /\ chats (final (executeSend env st text)) = chats st
          /\ activeChatId (final (executeSend env st text)) = activeChatId st)
    as Hstuck.
  { unfold executeSend. cbv zeta.
    destruct ((trim text =? "")%string || isLoading st); [discriminate|].
    destruct (negb (truthy (apiKey st))); [discriminate|].
    destruct (match ragRetriever st with
              | Some retriever =>
                  (option_map joinContext (retriever text),
                   [GetRelevantDocuments text])
              | None => (Some "", [])
              end) as [[context|] tr1]; [|repeat split].
    destruct (resolveTarget env _ _) as [[target st2]|]; [|repeat split].
    destruct (catchBlock _ _ _ _). discriminate. }
  assert (uncaught (executeSend env st text) = true <->
          accepted st text
          /\ ~ (retrieval_answers st text /\ target_resolves st)) as Hiff.
  { destruct (executeSend_cases env st text)
      as [[Hnot _]|(target & st2 & Hacc & Hret & Hres & Hex)].
    - split.
      + intros Hu.
        assert (accepted st text) as Hacc; [|tauto].
        revert Hu. unfold executeSend. cbv zeta. rewrite trim_eqb_blank.
        destruct (blank text) eqn:Eb; [discriminate|].
        destruct (isLoading st) eqn:El; [discriminate|]. cbn [orb].
        destruct (negb (truthy (apiKey st))) eqn:Ek; [discriminate|].
        intros _. split; [exact Eb|]. split; [exact El|].
        apply truthy_true. apply negb_false_iff in Ek. exact Ek.
      + intros (Hacc & _). unfold executeSend. cbv zeta.
        destruct (accepted_tests st text Hacc) as [-> ->].
        unfold retrieval_answers in Hnot.
        destruct (ragRetriever st) as [retriever|] eqn:Er.
        * destruct (retriever text) as [docs|] eqn:Ed; [|reflexivity].
          cbn [option_map].
          destruct (resolveTarget env _ _) as [[target st2]|] eqn:Et;
            [|reflexivity].
          exfalso. apply Hnot. split; [exact Hacc|]. split.
          -- intros r' [= <-]. congruence.
          -- intros Htr Hnone. unfold resolveTarget in Et. state_simpl.
             unfold activeChat in Hnone.
             destruct (activeChatId st) as [a|]; [|discriminate].
             simpl in Htr. rewrite Htr, Hnone in Et. discriminate.
        * destruct (resolveTarget env _ _) as [[target st2]|] eqn:Et;
            [|reflexivity].
          exfalso. apply Hnot. split; [exact Hacc|]. split.
          -- intros r' [=].
          -- intros Htr Hnone. unfold resolveTarget in Et. state_simpl.
             unfold activeChat in Hnone.
             destruct (activeChatId st) as [a|]; [|discriminate].
             simpl in Htr. rewrite Htr, Hnone in Et. discriminate.
    - rewrite Hex. cbv zeta. split; [discriminate|].
      intros (_ & Hnot). exfalso. apply Hnot. split; [exact Hret|].
      intros Htr Hnone. unfold resolveTarget in Hres. state_simpl.
      unfold activeChat in Hnone.
      destruct (activeChatId st) as [a|]; [|discriminate].
      simpl in Htr. rewrite Htr, Hnone in Hres. discriminate. }
  split; [exact Hiff|]. split.
  - intros Hu. destruct (Hstuck Hu) as (Hl & Hc & Ha).
    split; [exact Hl|]. split; [exact Hc|]. split; [exact Ha|]. split.
    + destruct (executeSend_cases env st text)
        as [[_ Hno]|(target & st2 & _ & _ & _ & Hex)]; [exact Hno|].
      rewrite Hex in Hu. discriminate.
    + intros env' text'. unfold executeSend at 1.
      rewrite Hl, orb_true_r. reflexivity.
  - intros Hinv Hret. destruct (uncaught (executeSend env st text)) eqn:Hu;
      [|reflexivity].
    destruct (proj1 Hiff eq_refl) as (_ & Hnot). exfalso. apply Hnot.
    split; [exact Hret|apply session_invariant_resolves, Hinv].
Qed.

(** A state whose active id names no session. *)
Lemma executeSend_unhandled_witness :
  uncaught (executeSend env0 (setActiveChatId (Some "1600000000000") state0)
              "hello") = true
  /\ isLoading
       (final (executeSend env0
                 (setActiveChatId (Some "1600000000000") state0) "hello"))
     = true
  /\ uncaught (executeSend env0 state0 "hello") = false.
Proof.
  pose proof (executeSend_unhandled env0
                (setActiveChatId (Some "1600000000000") state0) "hello")
    as (Hiff & Hstuck & _).
  assert (uncaught (executeSend env0
                      (setActiveChatId (Some "1600000000000") state0)
                      "hello") = true) as Hu.
  { apply Hiff. split.
    - repeat split. discriminate.
    - intros (_ & Hres). apply Hres; reflexivity. }
  split; [exact Hu|]. split; [exact (proj1 (Hstuck Hu))|].
  apply (proj2 (proj2 (executeSend_unhandled env0 state0 "hello"))).
  - exact state0_invariant.
  - intros retriever H. discriminate H.
Defined.

(** X11. While the output is muted, or in a browser without speech synthesis,
    a send utters nothing: no reply and no fallback text reaches the
    synthesiser, on any path. *)
Theorem executeSend_muted (env : Env) (st : AppState) (text : string) :
  isMuted st = true \/ speechSynthesis env = false ->
  List.filter is_speech (trace (executeSend env st text)) = [].
Proof.
  intros Hmute.
  assert (forall t, speak env st t = []) as Hspeak.
  { intros t. unfold speak. destruct Hmute as [-> | ->]; [reflexivity|].
    rewrite orb_true_r. reflexivity. }
  unfold executeSend. cbv zeta.
  destruct ((trim text =? "")%string || isLoading st); [reflexivity|].
  destruct (negb (truthy (apiKey st))); [reflexivity|].
  assert (forall tr, List.filter is_speech
                       (match ragRetriever st with
                        | Some _ => [GetRelevantDocuments text]
                        | None => []
                        end ++ tr)
                     = List.filter is_speech tr) as Hretr
    by (intros tr; destruct (ragRetriever st); reflexivity).
  destruct (ragRetriever st) as [retriever|];
    [destruct (retriever text) as [docs|]; [|reflexivity]|];
    cbn [option_map];
    (destruct (resolveTarget env _ _) as [[target st2]|]; [|reflexivity]);
    match goal with
    | |- context [catchBlock ?e ?s ?c (tryBlock ?e ?s ?t ?c ?p ?cs)] =>
        pose proof (try_catch_cases e s t c p cs) as Hx; cbv zeta in Hx;
        rewrite !Hspeak in Hx;
        destruct (catchBlock e s c (tryBlock e s t c p cs)) as [cs' tr2]
    end;
    cbn [trace resolved app];
    repeat match type of Hx with
           | context [if ?b then _ else _] => destruct b
           end;
    injection Hx as _ ->; reflexivity.
Qed.

Lemma executeSend_muted_witness :
  List.filter is_speech
    (trace (executeSend env_down
              {| apiKey := "sk-test"; model := "gpt-4o-mini";
                 chats := [chat2; chat1];
                 activeChatId := Some "1700000000002";
                 input := ""; isLoading := false; isMuted := true;
                 voiceCommandToSend := None; ragRetriever := None;
                 loadedDocuments := []; utteranceStartIndexRef := 0 |}
              "hello")) = [].
Proof.
  apply executeSend_muted. left. reflexivity.
Defined.

Lemma speak_no_network (env : Env) (st : AppState) (text : string) :
  List.filter is_network_call (speak env st text) = [].
Proof.
  unfold speak. destruct (isMuted st || negb (speechSynthesis env)); reflexivity.
Qed.

(** X12. A send makes at most three network calls, in this order: the
    retrieval query, the title request, the main request.  The query is made
    only with a retrieval index, the title request only on the first exchange
    of the session, and on a first exchange the main request is never made
    without the title request before it. *)
Theorem executeSend_network_calls (env : Env) (st : AppState)
    (text : string) :
  exists q t m : bool,
    List.filter is_network_call (trace (executeSend env st text))
    = (if q then [GetRelevantDocuments text] else [])
      ++ (if t
          then [CompletionsCreate TitleCall "gpt-4o" (title_request text)]
          else [])
      ++ (if m
          then [CompletionsCreate MainCall (model st)
                  (expected_prompt st text)]
          else [])
    /\ (q = true -> ragRetriever st <> None)
    /\ (t = true -> first_exchange st = true)
    /\ (m = true -> first_exchange st = true -> t = true).
Proof.
  destruct (executeSend_outcome env st text)
    as [[_ Hno]|(_ & _ & _ & target & st2 & _ & _ & _ & _ & Hex)].
  - (* no completion request: at most the retrieval query *)
    assert (List.filter is_network_call (trace (executeSend env st text))
            = [] \/
            (ragRetriever st <> None
             /\ List.filter is_network_call (trace (executeSend env st text))
                = [GetRelevantDocuments text])) as Hshape.
    { revert Hno. unfold executeSend. cbv zeta.
      destruct ((trim text =? "")%string || isLoading st); [left; reflexivity|].
      destruct (negb (truthy (apiKey st))); [left; reflexivity|].
      destruct (ragRetriever st) as [retriever|].
      - destruct (retriever text) as [docs|];
          [|right; split; [discriminate|reflexivity]].
        cbn [option_map].
        destruct (resolveTarget env _ _) as [[target st2]|];
          [|right; split; [discriminate|reflexivity]].
        intros Hno. exfalso.
        rewrite try_catch_cases in Hno. cbv zeta in Hno.
        repeat match type of Hno with
               | context [if ?b then _ else _] => destruct b
               end;
          cbn [trace resolved snd] in Hno;
          first [ eapply (Hno TitleCall); right; left; reflexivity
                | eapply (Hno MainCall); right; left; reflexivity ].
      - destruct (resolveTarget env _ _) as [[target st2]|];
          [|left; reflexivity].
        intros Hno. exfalso.
        rewrite try_catch_cases in Hno. cbv zeta in Hno.
        repeat match type of Hno with
               | context [if ?b then _ else _] => destruct b
               end;
          cbn [trace resolved snd] in Hno;
          first [ eapply (Hno TitleCall); left; reflexivity
                | eapply (Hno MainCall); left; reflexivity ]. }
    destruct Hshape as [E|[Hr E]].
    + exists false, false, false. rewrite E.
      split; [reflexivity|]. repeat split; intros H; discriminate H.
    + exists true, false, false. rewrite E.
      split; [reflexivity|]. split; [intros _; exact Hr|].
      split; intros H; discriminate H.
  - cbv zeta in Hex. rewrite Hex. clear Hex.
    assert (forall tr,
               List.filter is_network_call (retrieval_events st text ++ tr)
               = (if match ragRetriever st with Some _ => true | None => false end
                  then [GetRelevantDocuments text] else [])
                 ++ List.filter is_network_call tr) as Hretr.
    { intros tr. unfold retrieval_events.
      destruct (ragRetriever st); reflexivity. }
    exists (match ragRetriever st with Some _ => true | None => false end).
    destruct (first_exchange st) eqn:Efirst;
      destruct (api_fails (title_result env text));
      destruct (api_fails (main_result env st text));
      try destruct (truthy_opt (first_content (main_result env st text)));
      cbn [andb trace resolved]; rewrite Hretr;
      cbn [List.filter is_network_call app];
      rewrite ?speak_no_network;
      first
        [ exists true, true; split; [reflexivity|]
        | exists true, false; split; [reflexivity|]
        | exists false, true; split; [reflexivity|]
        | exists false, false; split; [reflexivity|] ];
      (split; [destruct (ragRetriever st); [discriminate|intros H; discriminate H]|]);
      split; intros H; try discriminate H; try reflexivity; try exact Efirst;
      intros H'; try discriminate H'; reflexivity.
Qed.

(** ** Document store and retrieval index *)

Lemma handleFileUpload_twice_witness :
  loadedDocuments
    (final (handleFileUpload [file_a]
              (final (handleFileUpload [file_a] state0))))
  = [ {| name := "a.txt"; doc_content := "first" |} ].
Proof.
  rewrite (proj1 (handleFileUpload_twice file_a state0 eq_refl)).
  reflexivity.
Defined.

Lemma handleFileUpload_NoDup_witness :
  List.NoDup
    (names (loadedDocuments
              (final (handleFileUpload
                        [file_a; {| file_name := "b.txt"; file_text := "x" |}]
                        state_rag)))).
Proof.
  apply handleFileUpload_NoDup.
  - simpl. repeat constructor; simpl; intuition discriminate.
  - simpl. repeat constructor; simpl; intuition discriminate.
Defined.

Lemma filter_absent_name (n : string) (docs : list LoadedDocument) :
  ~ In n (names docs) ->
  List.filter (fun doc => negb (name doc =? n)%string) docs = docs.
Proof.
  unfold names. induction docs as [|d ds IH]; simpl; intros Hnot; [reflexivity|].
  destruct (String.eqb_spec (name d) n) as [E|E]; simpl.
  - exfalso. apply Hnot. left. exact E.
  - rewrite IH; [reflexivity|]. intros H. apply Hnot. right. exact H.
Qed.

(** X16. Removing a document by name leaves no entry with that name and
    keeps every other entry; distinct names stay distinct; and removing a
    name the store does not hold changes nothing. *)
Theorem handleRemoveDocument_removes (n : string) (st : AppState) :
  ~ In n (names (loadedDocuments (handleRemoveDocument n st)))
  /\ (forall d, In d (loadedDocuments (handleRemoveDocument n st)) <->
                In d (loadedDocuments st) /\ name d <> n)
  /\ (List.NoDup (names (loadedDocuments st)) ->
      List.NoDup (names (loadedDocuments (handleRemoveDocument n st))))
  /\ (~ In n (names (loadedDocuments st)) -> handleRemoveDocument n st = st).
Proof.
  unfold handleRemoveDocument. cbn [loadedDocuments setLoadedDocuments].
  assert (forall d, In d (List.filter
                            (fun doc => negb (name doc =? n)%string)
                            (loadedDocuments st)) <->
                    In d (loadedDocuments st) /\ name d <> n) as Hin.
  { intros d. rewrite filter_In, negb_true_iff, String.eqb_neq. reflexivity. }
  split; [|split; [exact Hin|split]].
  - unfold names. intros H. apply in_map_iff in H as (d & Hd & Hdin).
    apply Hin in Hdin as [_ Hne]. exact (Hne Hd).
  - clear Hin. unfold names.
    induction (loadedDocuments st) as [|d ds IH]; simpl;
      intros Hnd; [constructor|].
    inversion Hnd as [|? ? Hd Hds]; subst.
    destruct (name d =? n)%string; simpl; [exact (IH Hds)|].
    constructor; [|exact (IH Hds)].
    intros H. apply Hd. apply in_map_iff in H as (d' & Hd' & Hin').
    apply filter_In in Hin' as [Hin' _]. rewrite <- Hd'. apply in_map.
    exact Hin'.
  - intros Hnot. rewrite (filter_absent_name _ _ Hnot).
    destruct st; reflexivity.
Qed.

Lemma handleRemoveDocument_removes_witness :
  handleRemoveDocument "b.txt" state_rag = state_rag
  /\ List.NoDup (names (loadedDocuments (handleRemoveDocument "fr.txt" state_rag))).
Proof.
  split.
  - apply (proj2 (proj2 (proj2 (handleRemoveDocument_removes "b.txt" state_rag)))).
    simpl. intuition discriminate.
  - apply (proj1 (proj2 (proj2 (handleRemoveDocument_removes "fr.txt" state_rag)))).
    simpl. repeat constructor; simpl; intuition.
Defined.

(** X17. Uploading one file whose name the store does not hold and then
    removing that name gives back the state as it was. *)
Theorem upload_then_remove (f : File) (st : AppState) :
  apiKey st <> "" ->
  ~ In (file_name f) (names (loadedDocuments st)) ->
  handleRemoveDocument (file_name f) (final (handleFileUpload [f] st)) = st.
Proof.
  intros Hk Hnot. apply truthy_true in Hk.
  unfold handleFileUpload, handleRemoveDocument. rewrite Hk.
  cbn [negb final resolved loadedDocuments setLoadedDocuments map].
  unfold addDocuments. cbn [List.filter toDocument name].
  assert (existsb (String.eqb (file_name f)) (map name (loadedDocuments st))
          = false) as ->.
  { destruct (existsb _ _) eqn:E; [|reflexivity].
    apply existsb_exists in E as (n & Hn & En). apply String.eqb_eq in En.
    subst n. exfalso. exact (Hnot Hn). }
  cbn [negb]. rewrite List.filter_app. cbn [List.filter name].
  rewrite String.eqb_refl. cbn [negb]. rewrite app_nil_r.
  rewrite (filter_absent_name _ _ Hnot).
  destruct st; reflexivity.
Qed.

Lemma upload_then_remove_witness :
  handleRemoveDocument "a.txt" (final (handleFileUpload [file_a] state_rag))
  = state_rag.
Proof.
  apply (upload_then_remove file_a state_rag).
  - discriminate.
  - simpl. intuition discriminate.
Defined.




(** X19. After a rebuild the status line never stays at the processing
    message, and it tells what became of the index: it reads that no
    document is loaded exactly when the store is empty, and the index is then
    cleared; when it reads ready, with the number of documents, an index is
    installed; when it reads the error message, the index is the one from
    before the rebuild.  The rebuild changes nothing but the index. *)
Theorem buildRag_status (renv : RagEnv) (st : AppState) (previous : string) :
  let st' := fst (buildRagFromLoadedDocs renv st) in
  let status := lastStatus (snd (buildRagFromLoadedDocs renv st)) previous in
  let ready := "Ready. " +:+ decimal (length (loadedDocuments st))
               +:+ " document(s) loaded." in
  st' = setRagRetriever (ragRetriever st') st
  /\ (status = "No documents loaded." <-> loadedDocuments st = [])
  /\ (status = "No documents loaded." /\ ragRetriever st' = None
      \/ status = ready /\ ragRetriever st' <> None
      \/ status = "Error processing documents."
         /\ ragRetriever st' = ragRetriever st).
Proof.
  cbv zeta. unfold buildRagFromLoadedDocs.
  destruct (loadedDocuments st) as [|d ds] eqn:Hdocs.
  - cbn [fst snd lastStatus fold_left ragRetriever setRagRetriever].
    split; [reflexivity|]. split; [tauto|]. left. split; reflexivity.
  - rewrite <- Hdocs.
    assert (st = setRagRetriever (ragRetriever st) st) as Hst
      by (destruct st; reflexivity).
    destruct (splitDocuments renv _) as [splitDocs|];
      [destruct (fromDocuments renv (apiKey st) splitDocs) as [retriever|]|];
      cbn [fst snd lastStatus fold_left ragRetriever setRagRetriever].
    + split; [reflexivity|]. split.
      * split; [intros H; discriminate H|intros H; congruence].
      * right. left. split; [reflexivity|discriminate].
    + split; [exact Hst|]. split.
      * split; [intros H; discriminate H|intros H; congruence].
      * right. right. split; reflexivity.
    + split; [exact Hst|]. split.
      * split; [intros H; discriminate H|intros H; congruence].
      * right. right. split; reflexivity.
Qed.

(** ** Voice bridge *)

Lemma toLowerCase_canonicalize (a : ascii) :
  toLowerCase_ascii (canonicalize a) = toLowerCase_ascii a.
Proof. destruct a as [[] [] [] [] [] [] [] []]; reflexivity. Qed.

Lemma ci_eqb_letter (a p : ascii) :
  toLowerCase_ascii p = p ->
  ci_eqb a p = true -> toLowerCase_ascii a = p.
Proof.
  intros Hp H. unfold ci_eqb in H. apply Ascii.eqb_eq in H.
  rewrite <- toLowerCase_canonicalize, H, toLowerCase_canonicalize.
  exact Hp.
Qed.

Lemma send_word_toLowerCase (word : string) :
  send_word_at_end word = true ->
  toLowerCase word = "send" \/ toLowerCase word = "sent".
Proof.
  destruct word as [|a [|b [|c [|d [|e r]]]]]; simpl; try discriminate.
  intros H. apply andb_true_iff in H as [H Hd].
  apply andb_true_iff in H as [H Hc]. apply andb_true_iff in H as [Ha Hb].
  rewrite (ci_eqb_letter a "s" eq_refl Ha), (ci_eqb_letter b "e" eq_refl Hb),
    (ci_eqb_letter c "n" eq_refl Hc).
  apply orb_true_iff in Hd as [Hd|Hd].
  - left. rewrite (ci_eqb_letter d "d" eq_refl Hd). reflexivity.
  - right. rewrite (ci_eqb_letter d "t" eq_refl Hd). reflexivity.
Qed.

(** X20. The voice command pattern matches exactly the utterances that end
    with one white-space character followed by [send] or [sent] in any letter
    case, and what is left after the replacement is the text before that
    white space: [send] alone, or as the tail of a longer word, or followed
    by anything, does not match. *)
Theorem sendCommandRegex_matches (s before : string) :
  sendCommandRegex_exec s = Some before <->
  exists w word,
    s = before +:+ String w word /\ isWhiteSpace w = true
    /\ (toLowerCase word = "send" \/ toLowerCase word = "sent").
Proof.
  split.
  - revert before. induction s as [|c r IH]; simpl; intros before;
      [discriminate|].
    destruct (isWhiteSpace c && send_word_at_end r) eqn:E.
    + intros [= <-]. apply andb_true_iff in E as [Hc Hr].
      exists c, r. split; [reflexivity|]. split; [exact Hc|].
      apply send_word_toLowerCase, Hr.
    + destruct (sendCommandRegex_exec r) as [b|]; [|discriminate].
      intros [= <-]. destruct (IH b eq_refl) as (w & word & -> & Hw & Hword).
      exists w, word. repeat split; assumption.
  - intros (w & word & -> & Hw & Hword).
    apply sendCommandRegex_exec_suffix; [exact Hw|].
    apply toLowerCase_send_word, Hword.
Qed.

Lemma trimEnd_idempotent (s : string) : trimEnd (trimEnd s) = trimEnd s.
Proof.
  induction s as [|c r IH]; [reflexivity|]. cbn [trimEnd].
  destruct ((trimEnd r =? "")%string && isWhiteSpace c) eqn:E; [reflexivity|].
  cbn [trimEnd]. rewrite IH, E. reflexivity.
Qed.

(** A trimmed string is empty or starts and ends with a character that is
    not white space: trimming it again changes nothing. *)
Lemma trim_idempotent (s : string) : trim (trim s) = trim s.
Proof.
  unfold trim. destruct (blank s) eqn:B.
  - rewrite (trimStart_blank s B). reflexivity.
  - destruct (trimStart_not_blank s B) as (c & r & -> & Hc).
    rewrite (trimEnd_keeps_head c r Hc). cbn [trimStart]. rewrite Hc.
    rewrite <- (trimEnd_keeps_head c r Hc). apply trimEnd_idempotent.
Qed.

Lemma trim_not_blank (s : string) : trim s <> "" -> blank (trim s) = false.
Proof.
  intros Hne. destruct (blank (trim s)) eqn:B; [|reflexivity].
  apply trim_blank in B. rewrite trim_idempotent in B. contradiction.
Qed.

(** X21. A recognition event sets the pending voice command only when its
    last result is final and its utterance ends with the command; the
    command it sets is the trimmed text before the command word, never
    blank, so the blank-text test of a send never rejects it; and the
    utterance boundary moves if and only if a command is set. *)
Theorem onresult_command (results : list SpeechResult) (st : AppState) :
  let st' := final (onresult results st) in
  input st' = currentUtteranceOf st results
  /\ ((voiceCommandToSend st' = voiceCommandToSend st
       /\ utteranceStartIndexRef st' = utteranceStartIndexRef st)
      \/ (exists lastResult before,
             nth_error results (length results - 1) = Some lastResult
             /\ isFinal lastResult = true
             /\ sendCommandRegex_exec (currentUtteranceOf st results)
                = Some before
             /\ voiceCommandToSend st' = Some (trim before)
             /\ blank (trim before) = false
             /\ trim (trim before) = trim before
             /\ utteranceStartIndexRef st' = length results)).
Proof.
  cbv zeta. unfold onresult.
  destruct (nth_error results (length results - 1)) as [lastResult|] eqn:El;
    [|split; [reflexivity|left; split; reflexivity]].
  destruct (isFinal lastResult) eqn:Ef;
    [|split; [reflexivity|left; split; reflexivity]].
  unfold sendCommandRegex_test, sendCommandRegex_strip.
  destruct (sendCommandRegex_exec (currentUtteranceOf st results))
    as [before|] eqn:Ex; [|split; [reflexivity|left; split; reflexivity]].
  destruct (truthy (trim before)) eqn:Et;
    [|split; [reflexivity|left; split; reflexivity]].
  split; [reflexivity|]. right. exists lastResult, before.
  apply truthy_true in Et.
  repeat split; try reflexivity; try assumption.
  - apply trim_not_blank, Et.
  - apply trim_idempotent.
Qed.

(** X22. The effect on the pending voice command sends it at most once: run
    again on the state it leaves, with any answers of the world, it does
    nothing. *)
Theorem voiceCommandEffect_once (env env' : Env) (st : AppState) :
  voiceCommandEffect env' (final (voiceCommandEffect env st))
  = resolved (final (voiceCommandEffect env st)) [].
Proof.
  unfold voiceCommandEffect at 2 3.
  destruct (voiceCommandToSend st) as [command|] eqn:Hv.
  - destruct (truthy command) eqn:Ht.
    + reflexivity.
    + cbn [final resolved]. unfold voiceCommandEffect. rewrite Hv, Ht.
      reflexivity.
  - cbn [final resolved]. unfold voiceCommandEffect. rewrite Hv. reflexivity.
Qed.

(** X23. A voice command spoken while a request is in flight is lost: the
    event consumes it and moves the utterance boundary past it, the effect
    clears it, and nothing is sent and no session changes; only the text
    field still shows the utterance. *)
Theorem voice_command_dropped_in_flight (env : Env)
    (earlier : list SpeechResult) (lastResult : SpeechResult)
    (st : AppState) (before : string) (w : ascii) (word : string) :
  let results := earlier ++ [lastResult] in
  isLoading st = true ->
  isFinal lastResult = true ->
  currentUtteranceOf st results = before +:+ String w word ->
  isWhiteSpace w = true ->
  toLowerCase word = "send" \/ toLowerCase word = "sent" ->
  trim before <> "" ->
  voiceSubmit env results st
  = resolved
      (setUtteranceStartIndex (length results)
         (setInput (before +:+ String w word)
            (setVoiceCommandToSend None st))) [].
Proof.
  intros results Hl Hfinal Hutt Hw Hword Hne.
  assert (onresult results st
          = resolved (setUtteranceStartIndex (length results)
                        (setVoiceCommandToSend (Some (trim before))
                           (setInput (before +:+ String w word) st))) [])
    as Hon.
  { unfold onresult. subst results. rewrite nth_error_last, Hfinal.
    unfold sendCommandRegex_test, sendCommandRegex_strip. rewrite Hutt.
    rewrite (sendCommandRegex_exec_suffix before w word Hw
               (toLowerCase_send_word word Hword)).
    apply truthy_true in Hne. rewrite Hne. reflexivity. }
  apply truthy_true in Hne.
  unfold voiceSubmit, voiceCommandEffect. rewrite Hon.
  cbn [uncaught final trace resolved voiceCommandToSend
         setUtteranceStartIndex setVoiceCommandToSend setInput].
  rewrite Hne. unfold executeSend.
  cbn [isLoading setUtteranceStartIndex setVoiceCommandToSend setInput].
  rewrite Hl, orb_true_r. reflexivity.
Qed.

Lemma voice_command_dropped_in_flight_witness :
  voiceSubmit env0
    [ {| transcript := "what is the "; isFinal := true |};
      {| transcript := "weather send"; isFinal := true |} ]
    (setIsLoading true state0)
  = resolved
      (setUtteranceStartIndex 2
         (setInput "what is the weather send"
            (setVoiceCommandToSend None (setIsLoading true state0)))) [].
Proof.
  apply (voice_command_dropped_in_flight env0
           [ {| transcript := "what is the "; isFinal := true |} ]
           {| transcript := "weather send"; isFinal := true |}
           (setIsLoading true state0) "what is the weather" " " "send");
    try reflexivity.
  - left. reflexivity.
  - vm_compute. discriminate.
Defined.
